(** * digidirect-scraper: the product model and the change detector

    A shallow embedding of [src/scraper.py] (class [Product]),
    [src/differ.py] (classes [ProductDiff] and [Differ]) and of the cycle
    drivers [main.py] and [scraper_single_run.py].

    Conventions of the embedding:
    - a Python [float] is a binary64 primitive float; [==], [!=] and [-]
      are the IEEE operations ([nan != nan], [-0.0 == 0.0]);
    - a raised exception is the [Raise] branch of [result];
    - a [dict] or [set] keyed by sku is a [gmap string _] / [gset string];
    - the order in which a Python [set] of strings is iterated depends on
      the per-process salt of [hash(str)], so it is a parameter
      ([SetIteration]) about which only "enumerates the set once" is
      known. *)

From Stdlib Require Import Floats.PrimFloat Strings.Ascii.
From stdpp Require Import gmap strings list fin_maps sorting pretty.

Open Scope string_scope.
Open Scope list_scope.

#[local] Set Warnings "-clear-no-such-hyp".

(** ** Exceptions *)

Inductive exn :=
  | KeyError (key : string)
  | ValueError (msg : string)
  | CorruptStateError
  | ScrapeError (msg : string)
  | InvalidToken.

Inductive result (A : Type) :=
  | Ok (a : A)
  | Raise (e : exn).
Arguments Ok {A} a.
Arguments Raise {A} e.

Global Instance result_ret : MRet result := @Ok.
Global Instance result_bind : MBind result := λ A B f m,
  match m with
  | Ok a => f a
  | Raise e => Raise e
  end.

(** ** Python values used by the program *)

Abbreviation pyfloat := PrimFloat.float.

(** [a != b] and [a == b] on floats. *)
Definition py_eq (a b : pyfloat) : bool := PrimFloat.eqb a b.
Definition py_ne (a b : pyfloat) : bool := negb (PrimFloat.eqb a b).

(** Iteration over a [set] of strings, within one call of [compare].
    The three sets a call iterates are pairwise disjoint, so they are
    never the same non-empty set and any three orders are given by some
    instance.  The order of a Python set also depends on how the set was
    built, so two calls are related through two instances, never through
    one. *)
Class SetIteration := {
  set_iter : gset string → list string;
  set_iter_perm : ∀ s, set_iter s ≡ₚ elements s
}.

(** Two salts: one under which sets happen to enumerate in ascending
    order of their elements, one under which they enumerate descending. *)
Definition ascending_iteration : SetIteration :=
  {| set_iter := λ s, merge_sort String.le (elements s);
     set_iter_perm := λ s, merge_sort_Permutation String.le (elements s) |}.

Definition descending_iteration : SetIteration :=
  {| set_iter := λ s, merge_sort (flip String.le) (elements s);
     set_iter_perm := λ s,
       merge_sort_Permutation (flip String.le) (elements s) |}.

(** [d[key]] on a dict keyed by strings. *)
Definition getitem {V} (d : gmap string V) (key : string) : result V :=
  match d !! key with
  | Some v => Ok v
  | None => Raise (KeyError key)
  end.

(** ** scraper.py: class Product *)

Record Product := mkProduct {
  sku : string;
  title : string;
  price : pyfloat;
  original_price : option pyfloat;
  url : string;
  image : string;
  discount : option string
}.

(** The plain key-value form of a product ([Dict[str, Any]]), restricted
    to the seven keys the program reads and writes.  A field is [None]
    when the key is absent from the dict; for the two optional keys the
    inner [None] is Python's [None] stored under the key. *)
Record RawRecord := mkRaw {
  raw_sku : option string;
  raw_title : option string;
  raw_price : option pyfloat;
  raw_original_price : option (option pyfloat);
  raw_url : option string;
  raw_image : option string;
  raw_discount : option (option string)
}.

(** [data[key]]: KeyError when the key is absent. *)
Definition subscript {A} (field : option A) (key : string) : result A :=
  match field with
  | Some v => Ok v
  | None => Raise (KeyError key)
  end.

(** [data.get(key)]: [None] when the key is absent. *)
Definition dict_get {A} (field : option (option A)) : option A :=
  match field with
  | Some v => v
  | None => None
  end.

Definition to_dict (self : Product) : RawRecord :=
  {| raw_sku := Some (sku self);
     raw_title := Some (title self);
     raw_price := Some (price self);
     raw_original_price := Some (original_price self);
     raw_url := Some (url self);
     raw_image := Some (image self);
     raw_discount := Some (discount self) |}.

Definition from_dict (data : RawRecord) : result Product :=
  s ← subscript (raw_sku data) "sku";
  t ← subscript (raw_title data) "title";
  p ← subscript (raw_price data) "price";
  let op := dict_get (raw_original_price data) in
  u ← subscript (raw_url data) "url";
  i ← subscript (raw_image data) "image";
  let d := dict_get (raw_discount data) in
  Ok (mkProduct s t p op u i d).

(** The right-hand side of [==]: a product or any other object. *)
Inductive pyobj :=
  | ObjProduct (p : Product)
  | ObjOther.

Definition Product_eq (self : Product) (other : pyobj) : bool :=
  match other with
  | ObjProduct o => String.eqb (sku self) (sku o)
  | ObjOther => false
  end.

Section Hashing.
(** [hash(str)], salted per process. *)
Variable str_hash : string → Z.

Definition Product_hash (self : Product) : Z := str_hash (sku self).
End Hashing.

(** ** differ.py: class ProductDiff *)

Record PriceChange := mkChange {
  product : Product;
  old_price : pyfloat;
  new_price : pyfloat;
  change : pyfloat
}.

Record ProductDiff := mkDiff {
  new_products : list Product;
  removed_products : list Product;
  price_changes : list PriceChange
}.

Definition nonempty {A} (l : list A) : bool :=
  match l with [] => false | _ :: _ => true end.

Definition has_changes (self : ProductDiff) : bool :=
  nonempty (new_products self) || nonempty (removed_products self)
  || nonempty (price_changes self).

(** ** differ.py: class Differ *)

(** [{p['sku']: Product.from_dict(p) for p in previous_products}]: the key
    is evaluated before the value, a later record overwrites an earlier
    one with the same sku. *)
Fixpoint index_previous (previous_products : list RawRecord)
    (acc : gmap string Product) : result (gmap string Product) :=
  match previous_products with
  | [] => Ok acc
  | p :: rest =>
      k ← subscript (raw_sku p) "sku";
      v ← from_dict p;
      index_previous rest (<[k := v]> acc)
  end.

(** [{p.sku: p for p in current_products}]. *)
Definition index_current (current_products : list Product)
    : gmap string Product :=
  foldl (λ acc p, <[sku p := p]> acc) ∅ current_products.

(** One turn of the loop over [common_skus]. *)
Definition price_change_step (previous current : gmap string Product)
    (acc : list PriceChange) (s : string) : result (list PriceChange) :=
  prev_product ← getitem previous s;
  curr_product ← getitem current s;
  if py_ne (price prev_product) (price curr_product) then
    Ok (acc ++ [ {| product := curr_product;
                    old_price := price prev_product;
                    new_price := price curr_product;
                    change := PrimFloat.sub (price curr_product)
                                            (price prev_product) |} ])
  else Ok acc.

Fixpoint price_change_loop (previous current : gmap string Product)
    (skus : list string) (acc : list PriceChange)
    : result (list PriceChange) :=
  match skus with
  | [] => Ok acc
  | s :: rest =>
      acc' ← price_change_step previous current acc s;
      price_change_loop previous current rest acc'
  end.

Section Differ.
Context `{SetIteration}.

Definition compare (previous_products : list RawRecord)
    (current_products : list Product) : result ProductDiff :=
  previous ← index_previous previous_products ∅;
  let current := index_current current_products in
  let new_skus := dom current ∖ dom previous in
  new ← mapM (getitem current) (set_iter new_skus);
  let removed_skus := dom previous ∖ dom current in
  removed ← mapM (getitem previous) (set_iter removed_skus);
  let common_skus := dom current ∩ dom previous in
  changes ← price_change_loop previous current (set_iter common_skus) [];
  Ok {| new_products := new;
        removed_products := removed;
        price_changes := changes |}.
End Differ.

Definition is_first_run (previous_products : list RawRecord) : bool :=
  Nat.eqb (length previous_products) 0.

(** ** The world a cycle runs in *)

(** What the file at [config.state_file] holds. *)
Inductive FileContent :=
  | Parsable (records : list RawRecord)
  | Unparsable (bytes : string).

(** One call of [bot.send_message] / [bot.send_photo].  The text of a
    message is a function of its payload and is not modelled. *)
Inductive Message :=
  | NewProductMsg (p : Product) (site_name : string)
  | RemovedProductMsg (p : Product) (site_name : string)
  | PriceChangeMsg (c : PriceChange) (site_name : string)
  | ErrorMsg (e : exn).

Inductive LogLine :=
  | LogNoProducts
  | LogFirstRun
  | LogChangesDetected
  | LogNoChanges
  | LogNothingToNotify
  | LogCompleted
  | LogCycleError (e : exn)
  | LogNotifyError (e : exn).

Inductive Event :=
  | Saved (records : list RawRecord)
  | Sent (m : Message)
  | Logged (l : LogLine).

Record World := mkWorld {
  state_file : option FileContent;
  trace : list Event
}.

Definition is_save (ev : Event) : bool :=
  match ev with Saved _ => true | _ => false end.

Definition is_change_notification (ev : Event) : bool :=
  match ev with
  | Sent (NewProductMsg _ _) | Sent (RemovedProductMsg _ _)
  | Sent (PriceChangeMsg _ _) => true
  | _ => false
  end.

(** State and exceptions: the world after a raise is the world at the
    raise. *)
Definition Cycle (A : Type) : Type := World → result A * World.

Global Instance cycle_ret : MRet Cycle := λ A a w, (Ok a, w).
Global Instance cycle_bind : MBind Cycle := λ A B f m w,
  match m w with
  | (Ok a, w') => f a w'
  | (Raise e, w') => (Raise e, w')
  end.

Definition lift {A} (r : result A) : Cycle A := λ w, (r, w).

Definition emit (ev : Event) : Cycle unit := λ w,
  (Ok tt, {| state_file := state_file w; trace := trace w ++ [ev] |}).

(** [try: body  except Exception as e: handler e]. *)
Definition try_except {A} (body : Cycle A) (handler : exn → Cycle A)
    : Cycle A := λ w,
  match body w with
  | (Ok a, w') => (Ok a, w')
  | (Raise e, w') => handler e w'
  end.

Fixpoint for_each {A} (l : list A) (body : A → Cycle unit) : Cycle unit :=
  match l with
  | [] => mret tt
  | x :: rest => body x ≫= λ _, for_each rest body
  end.

(** ** storage.py: class Storage *)

(** Modelled from the spec: [src/storage.py] is not among the sources.
    [load()] "returns the persisted records, or an empty list if no
    snapshot file exists yet", and "fails with a CorruptStateError if the
    persisted content exists but cannot be parsed". *)
Definition load_state : Cycle (list RawRecord) := λ w,
  match state_file w with
  | None => (Ok [], w)
  | Some (Parsable records) => (Ok records, w)
  | Some (Unparsable _) => (Raise CorruptStateError, w)
  end.

(** Modelled from the spec: the loaded state is the list of raw records. *)
Definition get_products_from_state (state : list RawRecord)
    : list RawRecord := state.

(** Modelled from the spec: [save(records)] "persists the given records as
    the new Snapshot, fully replacing the previous content". *)
Definition save_state (products : list RawRecord) : Cycle unit := λ w,
  (Ok tt, {| state_file := Some (Parsable products);
             trace := trace w ++ [Saved products] |}).

(** ** notifier.py: class TelegramNotifier *)

(** Every [_send_*] method makes one send call and catches its
    [TelegramError]; the call is what the trace records. *)
Definition send_diff_notifications (diff : ProductDiff) (site_name : string)
    : Cycle unit :=
  if negb (has_changes diff) then emit (Logged LogNothingToNotify)
  else
    for_each (new_products diff)
      (λ p, emit (Sent (NewProductMsg p site_name))) ≫= λ _,
    for_each (removed_products diff)
      (λ p, emit (Sent (RemovedProductMsg p site_name))) ≫= λ _,
    for_each (price_changes diff)
      (λ c, emit (Sent (PriceChangeMsg c site_name))).

Definition send_error_notification (e : exn) : Cycle unit :=
  emit (Sent (ErrorMsg e)).

(** ** config.py: class Config *)

Record Config := mkConfig {
  telegram_bot_token : option string;
  telegram_chat_id : option string;
  site_name : string
}.

(** [not x] for an optional string: unset or empty. *)
Definition falsy (x : option string) : bool :=
  match x with
  | None => true
  | Some s => String.eqb s ""
  end.

Definition validate (config : Config) : result bool :=
  if falsy (telegram_bot_token config) then
    Raise (ValueError "TELEGRAM_BOT_TOKEN is not set")
  else if falsy (telegram_chat_id config) then
    Raise (ValueError "TELEGRAM_CHAT_ID is not set")
  else Ok true.

(** [TelegramNotifier(bot_token, chat_id)] builds [Bot(token=bot_token)],
    which raises [InvalidToken] when the token is unset or empty. *)
Definition new_notifier (config : Config) : result unit :=
  if falsy (telegram_bot_token config) then Raise InvalidToken
  else Ok tt.

(** ** main.py *)

(** [main()] runs a cycle only after [config.validate()] passed and the
    test message was sent through a notifier, so within a cycle the
    notifier is always built; its construction is left out here. *)
Module Main.
Section Cycle.
Context `{SetIteration}.
Variable config : Config.
(** What [scraper.scrape()] does this cycle. *)
Variable scrape : result (list Product).

Definition run_scrape_cycle_sync
    : Cycle (list RawRecord * list Product) :=
  previous_state ← load_state;
  let previous_products := get_products_from_state previous_state in
  current_products ← lift scrape;
  mret (previous_products, current_products).

Definition run_scrape_cycle : Cycle unit :=
  try_except
    (pc ← run_scrape_cycle_sync;
     let previous_products := pc.1 in
     let current_products := pc.2 in
     if negb (nonempty current_products) then
       emit (Logged LogNoProducts)
     else
       (if is_first_run previous_products then
          emit (Logged LogFirstRun)
        else
          diff ← lift (compare previous_products current_products);
          if has_changes diff then
            emit (Logged LogChangesDetected) ≫= λ _,
            send_diff_notifications diff (site_name config)
          else emit (Logged LogNoChanges)) ≫= λ _,
       save_state (to_dict <$> current_products) ≫= λ _,
       emit (Logged LogCompleted))
    (λ e,
       emit (Logged (LogCycleError e)) ≫= λ _,
       try_except (send_error_notification e)
         (λ notify_error, emit (Logged (LogNotifyError notify_error)))).
End Cycle.
End Main.

(** ** scraper_single_run.py *)

Module SingleRun.
Section Cycle.
Context `{SetIteration}.
Variable config : Config.
Variable scrape : result (list Product).

Definition run_scrape_sync : Cycle (list RawRecord * list Product) :=
  previous_state ← load_state;
  let previous_products := get_products_from_state previous_state in
  current_products ← lift scrape;
  mret (previous_products, current_products).

Definition main : Cycle bool :=
  try_except
    (_ ← lift (validate config);
     pc ← run_scrape_sync;
     let previous_products := pc.1 in
     let current_products := pc.2 in
     if negb (nonempty current_products) then
       emit (Logged LogNoProducts) ≫= λ _, mret false
     else
       lift (new_notifier config) ≫= λ _,
       (if is_first_run previous_products then
          emit (Logged LogFirstRun)
        else
          diff ← lift (compare previous_products current_products);
          if has_changes diff then
            emit (Logged LogChangesDetected) ≫= λ _,
            send_diff_notifications diff (site_name config)
          else emit (Logged LogNoChanges)) ≫= λ _,
       save_state (to_dict <$> current_products) ≫= λ _,
       emit (Logged LogCompleted) ≫= λ _,
       mret true)
    (λ e,
       emit (Logged (LogCycleError e)) ≫= λ _,
       try_except
         (lift (new_notifier config) ≫= λ _, send_error_notification e)
         (λ _, mret tt) ≫= λ _,
       mret false).
End Cycle.
End SingleRun.

(** ** Sample data *)

Definition sample (s : string) (p : pyfloat) : Product :=
  mkProduct s (String.append "Camera " s) p None
    (String.append "https://shop.example/" s) "" None.

Definition sample_config : Config :=
  mkConfig (Some "token") (Some "chat") "digiDirect".

(** * More of the program *)

(** ** differ.py: ProductDiff.get_summary *)

(** [f"{len(l)} new"]: the length in decimal, then the label. *)
Definition count_part (n : nat) (label : string) : string :=
  pretty n +:+ label.

Definition get_summary (self : ProductDiff) : string :=
  let parts := [] in
  let parts :=
    if nonempty (new_products self)
    then parts ++ [count_part (length (new_products self)) " new"]
    else parts in
  let parts :=
    if nonempty (removed_products self)
    then parts ++ [count_part (length (removed_products self)) " removed"]
    else parts in
  let parts :=
    if nonempty (price_changes self)
    then parts ++ [count_part (length (price_changes self)) " price changes"]
    else parts in
  if negb (nonempty parts) then "No changes"
  else String.concat ", " parts.

(** ** scraper.py: Scraper._parse_price *)

(** [s.replace(c, '')] for a one-character [c]. *)
Fixpoint str_remove (c : Ascii.ascii) (s : string) : string :=
  match s with
  | EmptyString => EmptyString
  | String a rest =>
      if Ascii.eqb a c then str_remove c rest
      else String a (str_remove c rest)
  end.

Section ParsePrice.
(** [str.strip()] and [float(str)], the latter raising [ValueError]. *)
Variable py_strip : string → string.
Variable py_float : string → result pyfloat.

Definition _parse_price (price_text : string) : result pyfloat :=
  let clean_price :=
    py_strip (str_remove ","%char (str_remove "$"%char price_text)) in
  py_float clean_price.
End ParsePrice.

(** * Vocabulary of the statements *)

(** The last record of a list carrying a given sku. *)
Definition last_with_sku (s : string) (l : list Product) : option Product :=
  last (filter (λ p, sku p = s) l).

(** A raw record has every key that [from_dict] subscripts. *)
Definition has_required_keys (r : RawRecord) : bool :=
  bool_decide (is_Some (raw_sku r)) && bool_decide (is_Some (raw_title r))
  && bool_decide (is_Some (raw_price r)) && bool_decide (is_Some (raw_url r))
  && bool_decide (is_Some (raw_image r)).

Definition well_formed (previous_products : list RawRecord) : Prop :=
  Forall (λ r, has_required_keys r = true) previous_products.

(** The entry appended by one turn of the price loop, if any. *)
Definition price_change_of (previous current : gmap string Product)
    (s : string) : option PriceChange :=
  prev_product ← previous !! s;
  curr_product ← current !! s;
  if py_ne (price prev_product) (price curr_product) then
    Some (mkChange curr_product (price prev_product) (price curr_product)
            (PrimFloat.sub (price curr_product) (price prev_product)))
  else None.

(** An index files every record under its own sku. *)
Definition keyed_by_sku (m : gmap string Product) : Prop :=
  ∀ s p, m !! s = Some p → sku p = s.

(** The report as a function of the two indexes. *)
Definition diff_of `{SetIteration} (previous current : gmap string Product)
  : ProductDiff :=
  {| new_products :=
       omap (current !!.) (set_iter (dom current ∖ dom previous));
     removed_products :=
       omap (previous !!.) (set_iter (dom previous ∖ dom current));
     price_changes :=
       omap (price_change_of previous current)
            (set_iter (dom current ∩ dom previous)) |}.

(** Sku sets of the inputs and of the report. *)
Definition current_skus (current_products : list Product) : gset string :=
  list_to_set (sku <$> current_products).

Definition previous_skus (previous_products : list RawRecord) : gset string :=
  list_to_set (omap raw_sku previous_products).

Definition new_skus_of (d : ProductDiff) : gset string :=
  list_to_set (sku <$> new_products d).
Definition removed_skus_of (d : ProductDiff) : gset string :=
  list_to_set (sku <$> removed_products d).
Definition changed_skus_of (d : ProductDiff) : gset string :=
  list_to_set (sku ∘ product <$> price_changes d).

(** Ascending order of a list of skus, as [sorted] would leave it. *)
Fixpoint ascending (skus : list string) : bool :=
  match skus with
  | a :: (b :: _) as rest => String.leb a b && ascending rest
  | _ => true
  end.

(** The world [w] after the events [evs], the state file untouched. *)
Definition logged (w : World) (evs : list Event) : World :=
  {| state_file := state_file w; trace := trace w ++ evs |}.

Definition quiet (ev : Event) : bool :=
  negb (is_save ev) && negb (is_change_notification ev).

(** Runs the straight-line part of a cycle. *)
Ltac run_cycle :=
  repeat progress
    (unfold mbind, mret, cycle_bind, cycle_ret, emit, save_state, lift,
       try_except, send_error_notification, logged;
     cbn).

(** The sends of [send_diff_notifications] for a report with changes. *)
Definition diff_messages (d : ProductDiff) (site : string) : list Event :=
  ((λ p, Sent (NewProductMsg p site)) <$> new_products d)
  ++ ((λ p, Sent (RemovedProductMsg p site)) <$> removed_products d)
  ++ ((λ c, Sent (PriceChangeMsg c site)) <$> price_changes d).

(** A price that is [==] to itself, that is, not a NaN. *)
Definition self_equal (p : Product) : bool := py_eq (price p) (price p).

(** The keys [from_dict] subscripts, in the order it reads them. *)
Definition required_keys : list string :=
  ["sku"; "title"; "price"; "url"; "image"].

(** Whether a raw record has a given required key. *)
Definition has_key (r : RawRecord) (key : string) : bool :=
  if String.eqb key "sku" then bool_decide (is_Some (raw_sku r))
  else if String.eqb key "title" then bool_decide (is_Some (raw_title r))
  else if String.eqb key "price" then bool_decide (is_Some (raw_price r))
  else if String.eqb key "url" then bool_decide (is_Some (raw_url r))
  else if String.eqb key "image" then bool_decide (is_Some (raw_image r))
  else false.

(** The state file loads, and what it holds has the required keys. *)
Definition snapshot_loads (w : World) : Prop :=
  match state_file w with
  | None => True
  | Some (Parsable records) => well_formed records
  | Some (Unparsable _) => False
  end.

(** The counts a summary lists: one per non-empty list of the report, in
    the order new, removed, price changes, each the length in decimal
    followed by its label. *)
Definition summary_parts (d : ProductDiff) : list string :=
  (if nonempty (new_products d)
   then [pretty (length (new_products d)) +:+ " new"] else [])
  ++ (if nonempty (removed_products d)
      then [pretty (length (removed_products d)) +:+ " removed"] else [])
  ++ (if nonempty (price_changes d)
      then [pretty (length (price_changes d)) +:+ " price changes"]
      else []).

(** What [send_diff_notifications] adds to the trace. *)
Definition notify_events (d : ProductDiff) (site : string) : list Event :=
  if has_changes d then diff_messages d site
  else [Logged LogNothingToNotify].

(** The events of the compare-and-notify stage for a report. *)
Definition compare_events (d : ProductDiff) (site : string) : list Event :=
  if has_changes d then Logged LogChangesDetected :: notify_events d site
  else [Logged LogNoChanges].

(** The world after a cycle that went through: events [evs], then the
    scraped products saved as the snapshot. *)
Definition completed (w : World) (cur : list Product) (evs : list Event)
    : World :=
  {| state_file := Some (Parsable (to_dict <$> cur));
     trace := trace w ++ evs
              ++ [Saved (to_dict <$> cur); Logged LogCompleted] |}.

(** The world after a cycle that failed with [e]. *)
Definition failed (w : World) (e : exn) : World :=
  logged w [Logged (LogCycleError e); Sent (ErrorMsg e)].

(** * Facts about the embedding *)

(** ** Sample runs *)

Example compare_sample_asc :
  @compare ascending_iteration
    [to_dict (sample "A" 100)] [sample "A" 120; sample "B" 50]
  = Ok {| new_products := [sample "B" 50];
          removed_products := [];
          price_changes := [mkChange (sample "A" 120) 100 120 20] |}.
Proof. vm_compute. reflexivity. Qed.

(** A raw record without a title makes [from_dict], hence [compare],
    raise. *)
Example compare_missing_title :
  @compare ascending_iteration
    [mkRaw (Some "A") None (Some 100%float) None (Some "") (Some "") None]
    [sample "A" 120]
  = Raise (KeyError "title").
Proof. vm_compute. reflexivity. Qed.

Example second_run_sample :
  SingleRun.main (H:=descending_iteration) sample_config
    (Ok [sample "A" 120; sample "B" 50])
    (mkWorld (Some (Parsable [to_dict (sample "A" 100)])) [])
  = (Ok true,
     mkWorld (Some (Parsable [to_dict (sample "A" 120);
                              to_dict (sample "B" 50)]))
       [Logged LogChangesDetected;
        Sent (NewProductMsg (sample "B" 50) "digiDirect");
        Sent (PriceChangeMsg (mkChange (sample "A" 120) 100 120 20)
                "digiDirect");
        Saved [to_dict (sample "A" 120); to_dict (sample "B" 50)];
        Logged LogCompleted]).
Proof. vm_compute. reflexivity. Qed.

(** ** The error monad *)

Lemma getitem_Some {V} (d : gmap string V) k v :
  d !! k = Some v → getitem d k = Ok v.
Proof. unfold getitem. by intros ->. Qed.

Lemma mapM_cons {A B} (f : A → result B) x l :
  mapM f (x :: l) = y ← f x; k ← mapM f l; mret (y :: k).
Proof. done. Qed.

Lemma mapM_getitem {V} (d : gmap string V) (keys : list string) :
  (∀ k, k ∈ keys → is_Some (d !! k)) →
  mapM (getitem d) keys = Ok (omap (d !!.) keys).
Proof.
  induction keys as [|k keys IH]; intros Hin; [done|].
  destruct (Hin k) as [v Hv]; [left|].
  cbn. rewrite (getitem_Some _ _ _ Hv), Hv. cbn.
  fold (mapM (getitem d) keys). rewrite IH; [done|].
  intros k' Hk'. apply Hin. by right.
Qed.

(** ** Indexing by sku *)

Lemma foldl_insert_lookup (l : list Product) (acc : gmap string Product) s :
  foldl (λ acc p, <[sku p := p]> acc) acc l !! s
  = match last_with_sku s l with
    | Some p => Some p
    | None => acc !! s
    end.
Proof.
  unfold last_with_sku. revert acc.
  induction l as [|a l IH]; intros acc; [done|].
  cbn [foldl]. rewrite IH, filter_cons.
  destruct (decide (sku a = s)) as [Heq|Hne].
  - rewrite last_cons. destruct (last (filter _ l)); [done|].
    rewrite <- Heq. apply lookup_insert_eq.
  - destruct (last (filter _ l)); [done|]. by apply lookup_insert_ne.
Qed.

Lemma index_current_lookup cur s :
  index_current cur !! s = last_with_sku s cur.
Proof.
  unfold index_current. rewrite foldl_insert_lookup, lookup_empty.
  by destruct (last_with_sku s cur).
Qed.

Lemma last_with_sku_Some s l p :
  last_with_sku s l = Some p → sku p = s ∧ p ∈ l.
Proof.
  unfold last_with_sku. intros Hl.
  assert (p ∈ filter (λ p, sku p = s) l) as Hin.
  { apply last_Some in Hl as [l' ->]. apply elem_of_app. right. by left. }
  by apply list_elem_of_filter in Hin.
Qed.

Lemma last_with_sku_is_Some s l :
  is_Some (last_with_sku s l) ↔ s ∈ sku <$> l.
Proof.
  unfold last_with_sku. rewrite list_elem_of_fmap. split.
  - intros [p Hp]. apply last_with_sku_Some in Hp as [? ?]. eauto.
  - intros (p & -> & Hin).
    destruct (last (filter (λ q, sku q = sku p) l)) eqn:Hl; [eauto|].
    apply last_None in Hl.
    assert (p ∈ filter (λ q, sku q = sku p) l) as Hp
      by by apply list_elem_of_filter.
    rewrite Hl in Hp. by apply elem_of_nil in Hp.
Qed.

Lemma index_current_sku cur s p :
  index_current cur !! s = Some p → sku p = s ∧ p ∈ cur.
Proof. rewrite index_current_lookup. apply last_with_sku_Some. Qed.

Lemma dom_index_current cur :
  dom (index_current cur) = list_to_set (sku <$> cur).
Proof.
  apply set_eq. intros s.
  rewrite elem_of_dom, index_current_lookup, last_with_sku_is_Some.
  by rewrite elem_of_list_to_set.
Qed.

(** ** Raw records *)

Lemma from_dict_ok r :
  has_required_keys r = true ↔ ∃ p, from_dict r = Ok p.
Proof.
  unfold has_required_keys, from_dict.
  destruct r as [[s|] [t|] [p|] op [u|] [i|] d]; cbn;
    split; try done; try (intros [? ?]; done); eauto.
Qed.

Lemma from_dict_fields r p :
  from_dict r = Ok p →
  raw_sku r = Some (sku p) ∧ raw_title r = Some (title p)
  ∧ raw_price r = Some (price p)
  ∧ dict_get (raw_original_price r) = original_price p
  ∧ raw_url r = Some (url p) ∧ raw_image r = Some (image p)
  ∧ dict_get (raw_discount r) = discount p.
Proof.
  unfold from_dict.
  destruct r as [[s|] [t|] [pr|] op [u|] [i|] d]; cbn; try done.
  intros [= <-]. done.
Qed.

Lemma from_dict_to_dict p : from_dict (to_dict p) = Ok p.
Proof. by destruct p. Qed.

Lemma well_formed_parse prev :
  well_formed prev → ∃ prevs, Forall2 (λ r p, from_dict r = Ok p) prev prevs.
Proof.
  induction 1 as [|r prev Hr _ [prevs IH]]; [by exists []|].
  apply from_dict_ok in Hr as [p Hp]. exists (p :: prevs). by constructor.
Qed.

Lemma index_previous_parsed prev prevs acc :
  Forall2 (λ r p, from_dict r = Ok p) prev prevs →
  index_previous prev acc
  = Ok (foldl (λ acc p, <[sku p := p]> acc) acc prevs).
Proof.
  intros HF. revert acc.
  induction HF as [|r p prev prevs Hp _ IH]; intros acc; [done|].
  cbn. destruct (from_dict_fields _ _ Hp) as (-> & _). cbn.
  rewrite Hp. cbn. apply IH.
Qed.

Lemma index_previous_Ok_well_formed prev acc m :
  index_previous prev acc = Ok m → well_formed prev.
Proof.
  revert acc. induction prev as [|r prev IH]; intros acc; [constructor|].
  cbn. destruct (raw_sku r); cbn; [|done].
  destruct (from_dict r) as [p|] eqn:Hr; cbn; [|done].
  intros Hm. constructor; [apply from_dict_ok; eauto|by eapply IH].
Qed.

Lemma index_previous_ok prev prevs :
  Forall2 (λ r p, from_dict r = Ok p) prev prevs →
  index_previous prev ∅ = Ok (index_current prevs).
Proof. apply index_previous_parsed. Qed.

(** ** What [compare] computes *)

Lemma price_change_loop_eq previous current keys acc :
  (∀ k, k ∈ keys → is_Some (previous !! k) ∧ is_Some (current !! k)) →
  price_change_loop previous current keys acc
  = Ok (acc ++ omap (price_change_of previous current) keys).
Proof.
  revert acc. induction keys as [|k keys IH]; intros acc Hin.
  { cbn. by rewrite app_nil_r. }
  destruct (Hin k) as [[p Hp] [c Hc]]; [left|].
  assert (price_change_of previous current k
          = if py_ne (price p) (price c)
            then Some (mkChange c (price p) (price c)
                         (PrimFloat.sub (price c) (price p)))
            else None) as Hk
    by (unfold price_change_of; by rewrite Hp, Hc).
  cbn [price_change_loop omap list_omap]. rewrite Hk.
  unfold price_change_step.
  rewrite (getitem_Some _ _ _ Hp), (getitem_Some _ _ _ Hc). cbn.
  destruct (py_ne (price p) (price c)); cbn.
  - rewrite IH; [by rewrite <- app_assoc|].
    intros k' Hk'. apply Hin. by right.
  - apply IH. intros k' Hk'. apply Hin. by right.
Qed.

Lemma index_current_keyed l : keyed_by_sku (index_current l).
Proof. intros s p Hp. by apply index_current_sku in Hp as [? _]. Qed.

Lemma omap_lookup_skus (m : gmap string Product) (keys : list string) :
  keyed_by_sku m → (∀ k, k ∈ keys → is_Some (m !! k)) →
  sku <$> omap (m !!.) keys = keys.
Proof.
  intros Hm. induction keys as [|k keys IH]; intros Hin; [done|].
  destruct (Hin k) as [p Hp]; [left|]. cbn. rewrite Hp. cbn.
  rewrite (Hm _ _ Hp), IH; [done|]. intros k' Hk'. apply Hin. by right.
Qed.

Lemma price_change_of_sku previous current s e :
  keyed_by_sku current →
  price_change_of previous current s = Some e → sku (product e) = s.
Proof.
  unfold price_change_of. intros Hc.
  destruct (previous !! s) as [p|]; [|done]. cbn.
  destruct (current !! s) as [c|] eqn:Hcs; [|done]. cbn.
  destruct (py_ne _ _); [|done]. intros [= <-]. cbn. by apply Hc.
Qed.

Lemma omap_price_change_skus previous current (keys : list string) :
  keyed_by_sku current →
  sublist (sku ∘ product <$> omap (price_change_of previous current) keys)
          keys.
Proof.
  intros Hc. induction keys as [|k keys IH]; [done|]. cbn.
  destruct (price_change_of previous current k) as [e|] eqn:He; cbn.
  - rewrite (price_change_of_sku _ _ _ _ Hc He). by apply sublist_skip.
  - by apply sublist_cons.
Qed.

Section DifferFacts.
Context `{SetIteration}.

Lemma elem_of_set_iter (s : gset string) x : x ∈ set_iter s ↔ x ∈ s.
Proof. by rewrite (set_iter_perm s), elem_of_elements. Qed.

Lemma NoDup_set_iter (s : gset string) : NoDup (set_iter s).
Proof. rewrite (set_iter_perm s). apply NoDup_elements. Qed.

Lemma set_iter_empty : set_iter ∅ = [].
Proof. apply Permutation_nil_r. by rewrite set_iter_perm, elements_empty. Qed.

Lemma set_iter_singleton x : set_iter {[x]} = [x].
Proof.
  apply Permutation_singleton_r. by rewrite set_iter_perm, elements_singleton.
Qed.

Lemma compare_eq prev cur prevs :
  Forall2 (λ r p, from_dict r = Ok p) prev prevs →
  compare prev cur = Ok (diff_of (index_current prevs) (index_current cur)).
Proof.
  intros HF. unfold compare. rewrite (index_previous_ok _ _ HF). cbn.
  rewrite mapM_getitem; cbn.
  2:{ intros k Hk. rewrite elem_of_set_iter in Hk.
      apply elem_of_dom. set_solver. }
  rewrite mapM_getitem; cbn.
  2:{ intros k Hk. rewrite elem_of_set_iter in Hk.
      apply elem_of_dom. set_solver. }
  rewrite price_change_loop_eq; [done|].
  intros k Hk. rewrite elem_of_set_iter in Hk.
  rewrite <- !elem_of_dom. set_solver.
Qed.

(** [compare] returns exactly on the snapshots whose records all have
    the required keys. *)
Lemma compare_Ok_iff prev cur :
  (∃ d, compare prev cur = Ok d) ↔ well_formed prev.
Proof.
  split.
  - intros [d Hd]. unfold compare in Hd.
    destruct (index_previous prev ∅) as [m|] eqn:Hm; [|done].
    by eapply index_previous_Ok_well_formed.
  - intros [prevs HF]%well_formed_parse. eexists. by apply compare_eq.
Qed.

Lemma new_products_skus previous current :
  keyed_by_sku current →
  sku <$> new_products (diff_of previous current)
  = set_iter (dom current ∖ dom previous).
Proof.
  intros Hc. apply omap_lookup_skus; [done|].
  intros k Hk. rewrite elem_of_set_iter in Hk. apply elem_of_dom. set_solver.
Qed.

Lemma removed_products_skus previous current :
  keyed_by_sku previous →
  sku <$> removed_products (diff_of previous current)
  = set_iter (dom previous ∖ dom current).
Proof.
  intros Hc. apply omap_lookup_skus; [done|].
  intros k Hk. rewrite elem_of_set_iter in Hk. apply elem_of_dom. set_solver.
Qed.

Lemma price_changes_skus previous current :
  keyed_by_sku current →
  sublist (sku ∘ product <$> price_changes (diff_of previous current))
          (set_iter (dom current ∩ dom previous)).
Proof. apply omap_price_change_skus. Qed.

Lemma elem_of_price_changes previous current e :
  e ∈ price_changes (diff_of previous current) ↔
  ∃ s, price_change_of previous current s = Some e.
Proof.
  cbn. rewrite list_elem_of_omap. split.
  - intros (s & _ & Hs). eauto.
  - intros (s & Hs). exists s. split; [|done].
    apply elem_of_set_iter. unfold price_change_of in Hs.
    destruct (previous !! s) eqn:Hp; [|done].
    destruct (current !! s) eqn:Hc; [|done].
    apply elem_of_intersection. split; apply elem_of_dom; eauto.
Qed.
End DifferFacts.

(** ** Sku sets of the inputs and of the report *)

Lemma parsed_skus prev prevs :
  Forall2 (λ r p, from_dict r = Ok p) prev prevs →
  omap raw_sku prev = sku <$> prevs.
Proof.
  induction 1 as [|r p prev prevs Hp _ IH]; [done|].
  destruct (from_dict_fields _ _ Hp) as (Hs & _).
  cbn. rewrite Hs. cbn. by rewrite IH.
Qed.

Lemma dom_index_previous prev prevs :
  Forall2 (λ r p, from_dict r = Ok p) prev prevs →
  dom (index_current prevs) = previous_skus prev.
Proof.
  intros HF. unfold previous_skus.
  by rewrite (parsed_skus _ _ HF), dom_index_current.
Qed.

Section ReportFacts.
Context `{SetIteration}.

Lemma set_iter_to_set (s : gset string) : list_to_set (set_iter s) = s.
Proof.
  apply set_eq. intros x. by rewrite elem_of_list_to_set, elem_of_set_iter.
Qed.

(** The skus of the three lists, for a well-formed snapshot. *)
Lemma compare_skus prev cur :
  well_formed prev →
  ∃ d, compare prev cur = Ok d
    ∧ sku <$> new_products d
      = set_iter (current_skus cur ∖ previous_skus prev)
    ∧ sku <$> removed_products d
      = set_iter (previous_skus prev ∖ current_skus cur)
    ∧ sublist (sku ∘ product <$> price_changes d)
              (set_iter (current_skus cur ∩ previous_skus prev)).
Proof.
  intros Hwf. destruct (well_formed_parse _ Hwf) as [prevs HF].
  eexists. split; [by apply compare_eq|].
  rewrite <- (dom_index_previous _ _ HF).
  unfold current_skus. rewrite <- dom_index_current.
  split; [|split].
  - apply new_products_skus, index_current_keyed.
  - apply removed_products_skus, index_current_keyed.
  - apply price_changes_skus, index_current_keyed.
Qed.
End ReportFacts.

(** * The change detector *)

(** C10: the sku sets of the three lists of a report are pairwise
    disjoint: the new skus are exactly the current skus absent from the
    previous side, the removed skus exactly the previous skus absent from
    the current side, and every sku with a price change is on both
    sides. *)
Theorem compare_classifies_each_sku_once `{SetIteration} prev cur :
  well_formed prev →
  ∃ d, compare prev cur = Ok d
    ∧ new_skus_of d = current_skus cur ∖ previous_skus prev
    ∧ removed_skus_of d = previous_skus prev ∖ current_skus cur
    ∧ changed_skus_of d ⊆ current_skus cur ∩ previous_skus prev
    ∧ new_skus_of d ## removed_skus_of d
    ∧ new_skus_of d ## changed_skus_of d
    ∧ removed_skus_of d ## changed_skus_of d.
Proof.
  intros Hwf. destruct (compare_skus prev cur Hwf) as (d & Hd & Hn & Hr & Hc).
  exists d. split; [done|].
  assert (new_skus_of d = current_skus cur ∖ previous_skus prev) as HN
    by (unfold new_skus_of; by rewrite Hn, set_iter_to_set).
  assert (removed_skus_of d = previous_skus prev ∖ current_skus cur) as HR
    by (unfold removed_skus_of; by rewrite Hr, set_iter_to_set).
  assert (changed_skus_of d ⊆ current_skus cur ∩ previous_skus prev) as HC.
  { intros s Hs. unfold changed_skus_of in Hs.
    apply elem_of_list_to_set in Hs.
    apply (elem_of_sublist _ _ _ Hs), elem_of_set_iter in Hc. done. }
  repeat split; try done; rewrite ?HN, ?HR; set_solver.
Qed.

Lemma compare_classifies_each_sku_once_witness :
  ∃ d, compare (H:=ascending_iteration)
         [to_dict (sample "A" 100); to_dict (sample "C" 7)]
         [sample "A" 120; sample "B" 50] = Ok d
    ∧ new_skus_of d ## removed_skus_of d.
Proof.
  destruct (compare_classifies_each_sku_once (H:=ascending_iteration)
              [to_dict (sample "A" 100); to_dict (sample "C" 7)]
              [sample "A" 120; sample "B" 50])
    as (d & Hd & _ & _ & _ & Hdisj & _).
  - repeat constructor.
  - by exists d.
Defined.

(** C7, as stated, fails: under a hash salt for which the set
    [{"A", "B"}] enumerates ["B"] first, the two new products are
    reported as [B; A], which is not ascending by sku. *)
Lemma compare_order_not_sorted :
  compare (H:=descending_iteration)
    [to_dict (sample "Z" 100)] [sample "A" 120; sample "B" 50]
  = Ok {| new_products := [sample "B" 50; sample "A" 120];
          removed_products := [sample "Z" 100];
          price_changes := [] |}
  ∧ ascending (sku <$> [sample "B" 50; sample "A" 120]) = false.
Proof. split; vm_compute; reflexivity. Qed.

(** C7, amended: each list of the report follows the iteration order of
    the sku set it is drawn from, without repetition: the new products
    enumerate [current - previous], the removed products enumerate
    [previous - current], and the price changes are a sub-sequence of the
    enumeration of [current & previous].  The order is the set's, not the
    order of the skus. *)
Theorem compare_order_is_set_iteration `{SetIteration} prev cur :
  well_formed prev →
  ∃ d, compare prev cur = Ok d
    ∧ sku <$> new_products d
      = set_iter (current_skus cur ∖ previous_skus prev)
    ∧ sku <$> removed_products d
      = set_iter (previous_skus prev ∖ current_skus cur)
    ∧ sublist (sku ∘ product <$> price_changes d)
              (set_iter (current_skus cur ∩ previous_skus prev))
    ∧ NoDup (sku <$> new_products d)
    ∧ NoDup (sku <$> removed_products d)
    ∧ NoDup (sku ∘ product <$> price_changes d).
Proof.
  intros Hwf. destruct (compare_skus prev cur Hwf) as (d & Hd & Hn & Hr & Hc).
  exists d. repeat split; try done.
  - rewrite Hn. apply NoDup_set_iter.
  - rewrite Hr. apply NoDup_set_iter.
  - eapply sublist_NoDup; [apply NoDup_set_iter|exact Hc].
Qed.

Lemma compare_order_is_set_iteration_witness :
  ∃ d, compare (H:=descending_iteration)
         [to_dict (sample "Z" 100)] [sample "A" 120; sample "B" 50] = Ok d
    ∧ sku <$> new_products d = ["B"; "A"].
Proof.
  destruct (compare_order_is_set_iteration (H:=descending_iteration)
              [to_dict (sample "Z" 100)] [sample "A" 120; sample "B" 50])
    as (d & Hd & Hn & _).
  - repeat constructor.
  - exists d. split; [exact Hd|]. rewrite Hn. vm_compute. reflexivity.
Defined.

Lemma price_change_of_Some previous current s e :
  keyed_by_sku current →
  price_change_of previous current s = Some e ↔
  ∃ p c, s = sku c ∧ previous !! s = Some p ∧ current !! s = Some c
    ∧ py_ne (price p) (price c) = true
    ∧ e = mkChange c (price p) (price c)
            (PrimFloat.sub (price c) (price p)).
Proof.
  intros Hkeyed. unfold price_change_of. split.
  - destruct (previous !! s) as [p|]; [|done]. cbn.
    destruct (current !! s) as [c|] eqn:Hc; [|done]. cbn.
    destruct (py_ne _ _) eqn:Hne; [|done]. intros [= <-].
    exists p, c. by rewrite (Hkeyed _ _ Hc).
  - intros (p & c & _ & -> & -> & Hne & ->). cbn. by rewrite Hne.
Qed.

(** C1: for a well-formed snapshot, [compare] returns a report whose
    price-change entries are exactly, once per sku, the entries
    [{product: c, old_price: p.price, new_price: c.price,
      change: c.price - p.price}] for the skus indexed on both sides
    (previous record [p], current record [c]) with
    [p.price != c.price].  In particular a snapshot holding sku A at 100
    against current records A at 120 and B at 50 yields new = [B],
    removed = [] and the single change (A, 100, 120, 20). *)
Theorem compare_price_changes `{SetIteration} :
  (∀ prev cur, well_formed prev →
     ∃ d previous,
       compare prev cur = Ok d
       ∧ index_previous prev ∅ = Ok previous
       ∧ NoDup (sku ∘ product <$> price_changes d)
       ∧ ∀ e, e ∈ price_changes d ↔
           ∃ p c, previous !! sku c = Some p
             ∧ index_current cur !! sku c = Some c
             ∧ py_ne (price p) (price c) = true
             ∧ e = mkChange c (price p) (price c)
                     (PrimFloat.sub (price c) (price p)))
  ∧ (∀ r a b,
       has_required_keys r = true →
       raw_sku r = Some "A" → raw_price r = Some 100%float →
       sku a = "A" → price a = 120%float →
       sku b = "B" → price b = 50%float →
       compare [r] [a; b]
       = Ok {| new_products := [b];
               removed_products := [];
               price_changes := [mkChange a 100 120 20] |}).
Proof.
  split.
  - intros prev cur Hwf. destruct (well_formed_parse _ Hwf) as [prevs HF].
    exists (diff_of (index_current prevs) (index_current cur)),
           (index_current prevs).
    split; [by apply compare_eq|]. split; [by apply index_previous_ok|].
    split.
    + eapply sublist_NoDup; [apply NoDup_set_iter|].
      apply price_changes_skus, index_current_keyed.
    + intros e. rewrite elem_of_price_changes. split.
      * intros (s & Hs).
        apply price_change_of_Some in Hs as (p & c & -> & ? & ? & ? & ?);
          [|apply index_current_keyed].
        by exists p, c.
      * intros (p & c & Hp & Hc & Hne & ->). exists (sku c).
        apply price_change_of_Some; [apply index_current_keyed|].
        by exists p, c.
  - intros r a b Hr Hrs Hrp Ha Hpa Hb Hpb.
    apply from_dict_ok in Hr as [p Hp].
    destruct (from_dict_fields _ _ Hp) as (Hs & _ & Hpr & _).
    assert (sku p = "A") as Hps by congruence.
    assert (price p = 100%float) as Hpp by congruence.
    rewrite (compare_eq [r] [a; b] [p]); [|by repeat constructor].
    assert (index_current [p] = {["A" := p]}) as ->.
    { unfold index_current. cbn. by rewrite Hps, insert_empty. }
    assert (index_current [a; b] = <["B" := b]> {["A" := a]}) as ->.
    { unfold index_current. cbn. by rewrite Ha, Hb, insert_empty. }
    unfold diff_of. rewrite dom_insert_L, !dom_singleton_L.
    replace (({["B"]} ∪ {["A"]}) ∖ {["A"]} : gset string)
      with ({["B"]} : gset string) by set_solver.
    replace ({["A"]} ∖ ({["B"]} ∪ {["A"]}) : gset string)
      with (∅ : gset string) by set_solver.
    replace (({["B"]} ∪ {["A"]}) ∩ {["A"]} : gset string)
      with ({["A"]} : gset string) by set_solver.
    rewrite !set_iter_singleton, set_iter_empty. cbn.
    rewrite lookup_insert_eq. unfold price_change_of.
    rewrite lookup_singleton_eq, lookup_insert_ne, lookup_singleton_eq by done.
    cbn. by rewrite Hpp, Hpa.
Qed.

Lemma compare_price_changes_witness :
  (∃ d, compare (H:=descending_iteration)
          [to_dict (sample "A" 100); to_dict (sample "C" 7)]
          [sample "A" 120; sample "C" 7] = Ok d
     ∧ NoDup (sku ∘ product <$> price_changes d))
  ∧ compare (H:=descending_iteration)
      [to_dict (sample "A" 100)] [sample "A" 120; sample "B" 50]
    = Ok {| new_products := [sample "B" 50];
            removed_products := [];
            price_changes := [mkChange (sample "A" 120) 100 120 20] |}.
Proof.
  split.
  - destruct (proj1 (compare_price_changes (H:=descending_iteration))
                [to_dict (sample "A" 100); to_dict (sample "C" 7)]
                [sample "A" 120; sample "C" 7])
      as (d & previous & Hd & _ & Hnodup & _).
    + repeat constructor.
    + by exists d.
  - apply (proj2 (compare_price_changes (H:=descending_iteration)));
      reflexivity.
Defined.

(** ** Duplicate skus *)

Section Duplicates.
Context `{SetIteration}.

Lemma elem_of_new_products previous current p :
  keyed_by_sku current →
  p ∈ new_products (diff_of previous current) →
  current !! sku p = Some p ∧ previous !! sku p = None.
Proof.
  intros Hk (s & Hs & Hp)%list_elem_of_omap.
  rewrite (Hk _ _ Hp). split; [done|].
  rewrite elem_of_set_iter in Hs. apply not_elem_of_dom. set_solver.
Qed.

Lemma elem_of_removed_products previous current p :
  keyed_by_sku previous →
  p ∈ removed_products (diff_of previous current) →
  previous !! sku p = Some p ∧ current !! sku p = None.
Proof.
  intros Hk (s & Hs & Hp)%list_elem_of_omap.
  rewrite (Hk _ _ Hp). split; [done|].
  rewrite elem_of_set_iter in Hs. apply not_elem_of_dom. set_solver.
Qed.

Lemma elem_of_new_products_iff previous current p :
  keyed_by_sku current →
  p ∈ new_products (diff_of previous current) ↔
  current !! sku p = Some p ∧ previous !! sku p = None.
Proof.
  intros Hk. split; [by apply elem_of_new_products|].
  intros [Hc Hp]. apply list_elem_of_omap. exists (sku p).
  split; [|done]. apply elem_of_set_iter, elem_of_difference.
  split; [by apply elem_of_dom|by apply not_elem_of_dom].
Qed.

Lemma elem_of_removed_products_iff previous current p :
  keyed_by_sku previous →
  p ∈ removed_products (diff_of previous current) ↔
  previous !! sku p = Some p ∧ current !! sku p = None.
Proof.
  intros Hk. split; [by apply elem_of_removed_products|].
  intros [Hc Hp]. apply list_elem_of_omap. exists (sku p).
  split; [|done]. apply elem_of_set_iter, elem_of_difference.
  split; [by apply elem_of_dom|by apply not_elem_of_dom].
Qed.
End Duplicates.

(** C8: duplicate skus within a side do not make [compare] raise.  Both
    indexes are last-write-wins: the record found under a sku is the last
    record of that side's list with that sku, and the report is decided
    by these last records alone: a product is reported new exactly when
    it is the last current record of its sku and no previous record has
    that sku, removed exactly when it is the last previous record of its
    sku and no current record has it, and a price change is reported
    exactly for the last previous and last current records of a sku
    whose prices differ.  No list of the report mentions a sku twice. *)
Theorem compare_duplicate_skus_last_wins `{SetIteration} prev cur :
  well_formed prev →
  ∃ d previous prevs,
    compare prev cur = Ok d
    ∧ Forall2 (λ r p, from_dict r = Ok p) prev prevs
    ∧ index_previous prev ∅ = Ok previous
    ∧ (∀ s, previous !! s = last_with_sku s prevs)
    ∧ (∀ s, index_current cur !! s = last_with_sku s cur)
    ∧ (∀ p, p ∈ new_products d ↔
         last_with_sku (sku p) cur = Some p
         ∧ last_with_sku (sku p) prevs = None)
    ∧ (∀ p, p ∈ removed_products d ↔
         last_with_sku (sku p) prevs = Some p
         ∧ last_with_sku (sku p) cur = None)
    ∧ (∀ e, e ∈ price_changes d ↔
         ∃ p c, last_with_sku (sku c) prevs = Some p
           ∧ last_with_sku (sku c) cur = Some c
           ∧ py_ne (price p) (price c) = true
           ∧ e = mkChange c (price p) (price c)
                   (PrimFloat.sub (price c) (price p)))
    ∧ NoDup (sku <$> new_products d)
    ∧ NoDup (sku <$> removed_products d)
    ∧ NoDup (sku ∘ product <$> price_changes d).
Proof.
  intros Hwf. destruct (well_formed_parse _ Hwf) as [prevs HF].
  exists (diff_of (index_current prevs) (index_current cur)),
         (index_current prevs), prevs.
  split; [by apply compare_eq|]. split; [done|].
  split; [by apply index_previous_ok|].
  split; [apply index_current_lookup|].
  split; [apply index_current_lookup|].
  split; [|split; [|split; [|split; [|split]]]].
  - intros p. rewrite <- !index_current_lookup.
    apply elem_of_new_products_iff, index_current_keyed.
  - intros p. rewrite <- !index_current_lookup.
    apply elem_of_removed_products_iff, index_current_keyed.
  - intros e. rewrite elem_of_price_changes. split.
    + intros (s & Hs).
      apply price_change_of_Some in Hs as (p & c & -> & Hp & Hc & Hne & ->);
        [|apply index_current_keyed].
      exists p, c. by rewrite <- !index_current_lookup.
    + intros (p & c & Hp & Hc & Hne & ->). exists (sku c).
      apply price_change_of_Some; [apply index_current_keyed|].
      exists p, c. by rewrite !index_current_lookup.
  - rewrite new_products_skus by apply index_current_keyed.
    apply NoDup_set_iter.
  - rewrite removed_products_skus by apply index_current_keyed.
    apply NoDup_set_iter.
  - eapply sublist_NoDup; [apply NoDup_set_iter|].
    apply price_changes_skus, index_current_keyed.
Qed.

Lemma compare_duplicate_skus_last_wins_witness :
  ∃ d, compare (H:=ascending_iteration)
         [to_dict (sample "A" 90); to_dict (sample "A" 100)]
         [sample "A" 110; sample "B" 50; sample "A" 120; sample "B" 60]
       = Ok d
    ∧ sample "B" 60 ∈ new_products d
    ∧ mkChange (sample "A" 120) 100 120 20 ∈ price_changes d.
Proof.
  destruct (compare_duplicate_skus_last_wins (H:=ascending_iteration)
              [to_dict (sample "A" 90); to_dict (sample "A" 100)]
              [sample "A" 110; sample "B" 50; sample "A" 120; sample "B" 60])
    as (d & previous & prevs & Hd & HF & _ & _ & _ & Hnew & _ & Hchg & _).
  - repeat constructor.
  - apply Forall2_cons_inv_l in HF as (p1 & ps1 & Hp1 & HF & ->).
    apply Forall2_cons_inv_l in HF as (p2 & ps2 & Hp2 & HF & ->).
    apply Forall2_nil_inv_l in HF as ->.
    injection Hp1 as <-. injection Hp2 as <-.
    exists d. split; [exact Hd|]. split.
    + apply Hnew. split; reflexivity.
    + apply Hchg. exists (sample "A" 100), (sample "A" 120).
      repeat split; reflexivity.
Defined.

Example compare_duplicates_sample :
  compare (H:=ascending_iteration)
    [to_dict (sample "A" 90); to_dict (sample "A" 100)]
    [sample "A" 110; sample "B" 50; sample "A" 120; sample "B" 60]
  = Ok {| new_products := [sample "B" 60];
          removed_products := [];
          price_changes := [mkChange (sample "A" 120) 100 120 20] |}.
Proof. vm_compute. reflexivity. Qed.

(** ** Disjoint sides *)

Lemma NoDup_sku_inj (l : list Product) p q :
  NoDup (sku <$> l) → p ∈ l → q ∈ l → sku p = sku q → p = q.
Proof.
  induction l as [|a l IH]; cbn; intros Hnd Hp Hq Heq.
  { by apply elem_of_nil in Hp. }
  apply NoDup_cons in Hnd as [Ha Hnd].
  apply elem_of_cons in Hp as [->|Hp]; apply elem_of_cons in Hq as [->|Hq];
    try done.
  - exfalso. apply Ha. rewrite Heq. by apply list_elem_of_fmap_2.
  - exfalso. apply Ha. rewrite <- Heq. by apply list_elem_of_fmap_2.
  - by apply IH.
Qed.

Lemma last_with_sku_NoDup (l : list Product) p :
  NoDup (sku <$> l) → p ∈ l → last_with_sku (sku p) l = Some p.
Proof.
  intros Hnd Hp.
  destruct (proj2 (last_with_sku_is_Some (sku p) l)) as [q Hq].
  { by apply list_elem_of_fmap_2. }
  rewrite Hq. f_equal.
  apply last_with_sku_Some in Hq as [Hs Hin].
  by apply (NoDup_sku_inj l).
Qed.

Section Disjoint.
Context `{SetIteration}.

(** A side none of whose skus is on the other side is reported whole. *)
Lemma omap_lookup_whole_side (side other : gmap string Product)
    (l : list Product) :
  side = index_current l → dom side ## dom other →
  let reported := omap (side !!.) (set_iter (dom side ∖ dom other)) in
  (list_to_set (sku <$> reported) : gset string) = list_to_set (sku <$> l)
  ∧ (∀ p, p ∈ reported ↔ last_with_sku (sku p) l = Some p)
  ∧ (NoDup (sku <$> l) → reported ≡ₚ l).
Proof.
  intros -> Hdisj reported.
  assert (dom (index_current l) ∖ dom other = dom (index_current l)) as Hd
    by set_solver.
  assert (sku <$> reported = set_iter (dom (index_current l))) as Hskus.
  { unfold reported. rewrite Hd. apply omap_lookup_skus.
    - apply index_current_keyed.
    - intros k Hk. rewrite elem_of_set_iter in Hk. by apply elem_of_dom. }
  assert (∀ p, p ∈ reported ↔ last_with_sku (sku p) l = Some p) as Hmem.
  { intros p. unfold reported. rewrite Hd, list_elem_of_omap.
    rewrite <- index_current_lookup. split.
    - intros (s & _ & Hp).
      by rewrite (index_current_keyed _ _ _ Hp).
    - intros Hp. exists (sku p). split; [|done].
      apply elem_of_set_iter, elem_of_dom. eauto. }
  split; [|split; [done|]].
  - by rewrite Hskus, set_iter_to_set, dom_index_current.
  - intros Hnd. apply NoDup_Permutation.
    + apply (NoDup_fmap_1 sku). rewrite Hskus. apply NoDup_set_iter.
    + by apply (NoDup_fmap_1 sku).
    + intros p. rewrite Hmem. split.
      * intros Hp. by apply last_with_sku_Some in Hp as [_ ?].
      * by apply last_with_sku_NoDup.
Qed.
End Disjoint.

(** C2: when no sku occurs on both sides, every current product is
    reported new, every previous product removed, and there is no price
    change.  "Equals the set" is by identity (the sku sets coincide, and
    the reported records are the indexed ones); for sides without
    duplicate skus the reported lists are permutations of the inputs. *)
Theorem compare_disjoint_skus `{SetIteration} prev cur :
  well_formed prev →
  current_skus cur ## previous_skus prev →
  ∃ d prevs,
    compare prev cur = Ok d
    ∧ Forall2 (λ r p, from_dict r = Ok p) prev prevs
    ∧ price_changes d = []
    ∧ new_skus_of d = current_skus cur
    ∧ removed_skus_of d = previous_skus prev
    ∧ (∀ p, p ∈ new_products d ↔ last_with_sku (sku p) cur = Some p)
    ∧ (∀ p, p ∈ removed_products d ↔ last_with_sku (sku p) prevs = Some p)
    ∧ (NoDup (sku <$> cur) → new_products d ≡ₚ cur)
    ∧ (NoDup (sku <$> prevs) → removed_products d ≡ₚ prevs).
Proof.
  intros Hwf Hdisj. destruct (well_formed_parse _ Hwf) as [prevs HF].
  exists (diff_of (index_current prevs) (index_current cur)), prevs.
  split; [by apply compare_eq|]. split; [done|].
  rewrite <- (dom_index_previous _ _ HF) in Hdisj.
  unfold current_skus in Hdisj. rewrite <- dom_index_current in Hdisj.
  destruct (omap_lookup_whole_side (index_current cur) (index_current prevs)
              cur eq_refl Hdisj) as (Hn1 & Hn2 & Hn3).
  destruct (omap_lookup_whole_side (index_current prevs) (index_current cur)
              prevs eq_refl (symmetry Hdisj)) as (Hr1 & Hr2 & Hr3).
  split.
  { cbn. replace (dom (index_current cur) ∩ dom (index_current prevs))
      with (∅ : gset string) by set_solver.
    by rewrite set_iter_empty. }
  split; [exact Hn1|]. split.
  { unfold removed_skus_of, previous_skus.
    by rewrite (parsed_skus _ _ HF). }
  done.
Qed.

Lemma compare_disjoint_skus_witness :
  ∃ d, compare (H:=ascending_iteration)
         [to_dict (sample "X" 10); to_dict (sample "Y" 20)]
         [sample "A" 120; sample "B" 50] = Ok d
    ∧ price_changes d = []
    ∧ new_products d ≡ₚ [sample "A" 120; sample "B" 50].
Proof.
  destruct (compare_disjoint_skus (H:=ascending_iteration)
              [to_dict (sample "X" 10); to_dict (sample "Y" 20)]
              [sample "A" 120; sample "B" 50])
    as (d & prevs & Hd & _ & Hc & _ & _ & _ & _ & Hn & _).
  - repeat constructor.
  - apply (bool_decide_unpack _). vm_compute. exact I.
  - exists d. split; [done|]. split; [done|]. apply Hn.
    apply (bool_decide_unpack _). vm_compute. exact I.
Defined.

(** ** Identity by sku *)

Lemma py_ne_eq a b : py_ne a b = negb (py_eq a b).
Proof. done. Qed.

(** C3: [__eq__] and [__hash__] look at the sku only: two products are
    equal exactly when their skus are, and products with equal skus have
    equal hashes, whatever their other fields.  Hence a sku indexed on
    both sides with [==] prices appears in none of the three lists of the
    report, whatever the titles, images and discounts; a one-record
    snapshot against the same sku at the same price gives the empty
    report. *)
Theorem product_identity_is_sku `{SetIteration} (str_hash : string → Z) :
  (∀ p q, Product_eq p (ObjProduct q) = true ↔ sku p = sku q)
  ∧ (∀ p q, sku p = sku q →
       Product_hash str_hash p = Product_hash str_hash q)
  ∧ (∀ prev cur, well_formed prev →
       ∃ d previous,
         compare prev cur = Ok d
         ∧ index_previous prev ∅ = Ok previous
         ∧ ∀ s p c,
             previous !! s = Some p → index_current cur !! s = Some c →
             py_eq (price p) (price c) = true →
             (s ∉ sku <$> new_products d)
             ∧ (s ∉ sku <$> removed_products d)
             ∧ (s ∉ sku ∘ product <$> price_changes d))
  ∧ (∀ p c, sku p = sku c → py_eq (price p) (price c) = true →
       compare [to_dict p] [c] = Ok (mkDiff [] [] [])).
Proof.
  split; [|split; [|split]].
  - intros p q. cbn. apply String.eqb_eq.
  - intros p q Heq. unfold Product_hash. by rewrite Heq.
  - intros prev cur Hwf. destruct (well_formed_parse _ Hwf) as [prevs HF].
    exists (diff_of (index_current prevs) (index_current cur)),
           (index_current prevs).
    split; [by apply compare_eq|]. split; [by apply index_previous_ok|].
    intros s p c Hp Hc Heq.
    rewrite new_products_skus, removed_products_skus
      by apply index_current_keyed.
    rewrite !elem_of_set_iter. split; [|split].
    + intros [_ Hn]%elem_of_difference. apply Hn, elem_of_dom. eauto.
    + intros [_ Hn]%elem_of_difference. apply Hn, elem_of_dom. eauto.
    + intros (e & -> & He)%list_elem_of_fmap.
      apply elem_of_price_changes in He as (s & Hs).
      apply price_change_of_Some in Hs
        as (p' & c' & -> & Hp' & Hc' & Hne & ->);
        [|apply index_current_keyed].
      cbn in Hp, Hc. rewrite Hp' in Hp. rewrite Hc' in Hc.
      injection Hp as ->. injection Hc as ->.
      rewrite py_ne_eq, Heq in Hne. done.
  - intros p c Hs Heq.
    rewrite (compare_eq [to_dict p] [c] [p]);
      [|repeat constructor; apply from_dict_to_dict].
    assert (index_current [p] = {[sku c := p]}) as ->.
    { unfold index_current. cbn. by rewrite Hs, insert_empty. }
    assert (index_current [c] = {[sku c := c]}) as ->.
    { unfold index_current. cbn. by rewrite insert_empty. }
    unfold diff_of. rewrite !dom_singleton_L.
    replace ({[sku c]} ∖ {[sku c]} : gset string)
      with (∅ : gset string) by set_solver.
    replace ({[sku c]} ∩ {[sku c]} : gset string)
      with ({[sku c]} : gset string) by set_solver.
    rewrite set_iter_empty, set_iter_singleton. cbn.
    unfold price_change_of. rewrite !lookup_singleton_eq. cbn.
    by rewrite py_ne_eq, Heq.
Qed.

Lemma product_identity_is_sku_witness :
  Product_hash (λ s, Z.of_nat (String.length s)) (sample "A" 100)
  = Product_hash (λ s, Z.of_nat (String.length s))
      (mkProduct "A" "Renamed" 120 (Some 150%float) "" "a.png" (Some "-20%"))
  ∧ compare (H:=descending_iteration)
      [to_dict (sample "A" 100)]
      [mkProduct "A" "Renamed" 100 (Some 150%float) "" "a.png" (Some "-33%")]
    = Ok (mkDiff [] [] [])
  ∧ ∃ d, compare (H:=descending_iteration)
           [to_dict (sample "A" 100); to_dict (sample "C" 7)]
           [sample "A" 100; sample "B" 7] = Ok d.
Proof.
  pose proof (product_identity_is_sku (H:=descending_iteration)
                (λ s, Z.of_nat (String.length s))) as (_ & Hh & Hc & Hone).
  split; [|split].
  - apply Hh. reflexivity.
  - apply Hone; reflexivity.
  - destruct (Hc [to_dict (sample "A" 100); to_dict (sample "C" 7)]
                 [sample "A" 100; sample "B" 7]) as (d & _ & Hd & _).
    + repeat constructor.
    + by exists d.
Defined.

(** Prices are IEEE floats: a price that is not a number differs from
    itself, so such a product is reported as changed on every cycle. *)
Example compare_nan_price :
  compare (H:=ascending_iteration)
    [to_dict (sample "A" PrimFloat.nan)] [sample "A" PrimFloat.nan]
  = Ok (mkDiff [] []
          [mkChange (sample "A" PrimFloat.nan) PrimFloat.nan PrimFloat.nan
             PrimFloat.nan]).
Proof. vm_compute. reflexivity. Qed.

(** * The cycle *)

Lemma cycle_bind_Ok {A B} (m : Cycle A) (f : A → Cycle B) w a w' :
  m w = (Ok a, w') → (m ≫= f) w = f a w'.
Proof. unfold mbind, cycle_bind. by intros ->. Qed.

Lemma cycle_bind_Raise {A B} (m : Cycle A) (f : A → Cycle B) w e w' :
  m w = (Raise e, w') → (m ≫= f) w = (Raise e, w').
Proof. unfold mbind, cycle_bind. by intros ->. Qed.

Lemma validate_Ok_token config b :
  validate config = Ok b → falsy (telegram_bot_token config) = false.
Proof.
  unfold validate. by destruct (falsy (telegram_bot_token config)).
Qed.

Lemma is_first_run_nil previous_products :
  is_first_run previous_products = true ↔ previous_products = [].
Proof. by destruct previous_products. Qed.

(** C4: [is_first_run] is true exactly for the empty previous collection
    (it does not look at the current one).  A cycle whose load returns no
    record and whose scrape returns at least one sends nothing and saves
    the scraped records as the snapshot; so for the scrape [A at 10]
    against no snapshot. *)
Theorem first_run_saves_baseline_silently `{SetIteration} :
  (∀ previous_products,
     is_first_run previous_products = true ↔ previous_products = [])
  ∧ (∀ config cur w,
       cur ≠ [] → load_state w = (Ok [], w) →
       Main.run_scrape_cycle config (Ok cur) w
       = (Ok tt,
          {| state_file := Some (Parsable (to_dict <$> cur));
             trace := trace w ++ [Logged LogFirstRun;
                                  Saved (to_dict <$> cur);
                                  Logged LogCompleted] |}))
  ∧ (∀ config,
       Main.run_scrape_cycle config (Ok [sample "A" 10]) (mkWorld None [])
       = (Ok tt,
          mkWorld (Some (Parsable [to_dict (sample "A" 10)]))
            [Logged LogFirstRun; Saved [to_dict (sample "A" 10)];
             Logged LogCompleted])).
Proof.
  split; [apply is_first_run_nil|]. split; [|done].
  intros config cur w Hcur Hload.
  unfold Main.run_scrape_cycle, Main.run_scrape_cycle_sync, try_except.
  rewrite (cycle_bind_Ok _ _ _ _ _
             (cycle_bind_Ok _ _ _ _ _ Hload)).
  destruct cur as [|c cur]; [done|]. run_cycle.
  by rewrite <- !app_assoc.
Qed.

Lemma first_run_saves_baseline_silently_witness :
  Main.run_scrape_cycle (H:=ascending_iteration) sample_config
    (Ok [sample "A" 10; sample "B" 20]) (mkWorld (Some (Parsable [])) [])
  = (Ok tt,
     mkWorld (Some (Parsable [to_dict (sample "A" 10); to_dict (sample "B" 20)]))
       [Logged LogFirstRun;
        Saved [to_dict (sample "A" 10); to_dict (sample "B" 20)];
        Logged LogCompleted]).
Proof.
  apply (proj1 (proj2 (first_run_saves_baseline_silently
                         (H:=ascending_iteration)))
           sample_config [sample "A" 10; sample "B" 20]
           (mkWorld (Some (Parsable [])) [])).
  - discriminate.
  - reflexivity.
Defined.

(** C5: a cycle whose scrape returns no record leaves the state file as
    it was, calls [save_state] never and sends no change notification,
    in [main.py] and in the single run (which returns [False]).  When
    the snapshot loads, the only event of the cycle is the log line
    about the empty scrape. *)
Theorem empty_scrape_aborts_before_save `{SetIteration} config w :
  (∃ evs, Main.run_scrape_cycle config (Ok []) w = (Ok tt, logged w evs)
          ∧ forallb quiet evs = true)
  ∧ (∃ evs, SingleRun.main config (Ok []) w = (Ok false, logged w evs)
            ∧ forallb quiet evs = true)
  ∧ (∀ records, load_state w = (Ok records, w) →
       Main.run_scrape_cycle config (Ok []) w
       = (Ok tt, logged w [Logged LogNoProducts])
       ∧ (validate config = Ok true →
          SingleRun.main config (Ok []) w
          = (Ok false, logged w [Logged LogNoProducts]))).
Proof.
  unfold Main.run_scrape_cycle, Main.run_scrape_cycle_sync,
    SingleRun.main, SingleRun.run_scrape_sync, load_state.
  destruct w as [file events].
  split; [|split].
  - run_cycle. destruct file as [[records|bytes]|]; run_cycle.
    + by exists [Logged LogNoProducts].
    + exists [Logged (LogCycleError CorruptStateError);
              Sent (ErrorMsg CorruptStateError)].
      by rewrite <- app_assoc.
    + by exists [Logged LogNoProducts].
  - unfold validate, new_notifier.
    destruct (falsy (telegram_bot_token config));
      [|destruct (falsy (telegram_chat_id config));
          [|destruct file as [[records|bytes]|]]];
      run_cycle; rewrite <- ?app_assoc; eexists; split; reflexivity.
  - intros records. run_cycle.
    destruct file as [[records'|bytes]|]; try done.
    + intros _. split; [by run_cycle|]. intros ->. by run_cycle.
    + intros _. split; [by run_cycle|]. intros ->. by run_cycle.
Qed.

Lemma empty_scrape_aborts_before_save_witness :
  SingleRun.main (H:=ascending_iteration) sample_config (Ok [])
    (mkWorld (Some (Parsable [to_dict (sample "A" 100)])) [])
  = (Ok false,
     mkWorld (Some (Parsable [to_dict (sample "A" 100)]))
       [Logged LogNoProducts]).
Proof.
  apply (proj2 (proj2 (proj2 (empty_scrape_aborts_before_save
           (H:=ascending_iteration) sample_config
           (mkWorld (Some (Parsable [to_dict (sample "A" 100)])) [])))
           [to_dict (sample "A" 100)] eq_refl)).
  reflexivity.
Defined.

(** C6: on a state file whose content does not parse, [load_state]
    raises [CorruptStateError]; the cycle stops there, logs the error
    and sends the error notification; it never takes the first-run
    branch, never compares and never saves, and the single run returns
    [False].  In the single run with a configuration that does not
    validate, the error logged is the configuration's, and nothing can
    be sent when it is the token that is missing; the run still fails
    without loading, comparing or saving. *)
Theorem corrupt_state_fails_cycle `{SetIteration} config scrape w bytes :
  state_file w = Some (Unparsable bytes) →
  load_state w = (Raise CorruptStateError, w)
  ∧ Main.run_scrape_cycle config scrape w
    = (Ok tt, logged w [Logged (LogCycleError CorruptStateError);
                        Sent (ErrorMsg CorruptStateError)])
  ∧ (validate config = Ok true →
     SingleRun.main config scrape w
     = (Ok false, logged w [Logged (LogCycleError CorruptStateError);
                            Sent (ErrorMsg CorruptStateError)]))
  ∧ ∃ e, SingleRun.main config scrape w
         = (Ok false,
            logged w (Logged (LogCycleError e)
                      :: if falsy (telegram_bot_token config) then []
                         else [Sent (ErrorMsg e)])).
Proof.
  intros Hfile.
  assert (load_state w = (Raise CorruptStateError, w)) as Hload
    by (unfold load_state; by rewrite Hfile).
  split; [done|].
  unfold Main.run_scrape_cycle, Main.run_scrape_cycle_sync,
    SingleRun.main, SingleRun.run_scrape_sync.
  split; [|split].
  - unfold try_except.
    rewrite (cycle_bind_Raise _ _ _ _ _ (cycle_bind_Raise _ _ _ _ _ Hload)).
    run_cycle. by rewrite <- app_assoc.
  - intros Hv. pose proof (validate_Ok_token _ _ Hv) as Htok.
    rewrite Hv. unfold try_except, new_notifier. rewrite Htok.
    run_cycle. rewrite Hload. run_cycle. by rewrite <- app_assoc.
  - unfold validate, new_notifier, try_except.
    destruct (falsy (telegram_bot_token config));
      [|destruct (falsy (telegram_chat_id config))];
      run_cycle; rewrite ?Hload; run_cycle; rewrite <- ?app_assoc;
      by eexists.
Qed.

Lemma corrupt_state_fails_cycle_witness :
  SingleRun.main (H:=ascending_iteration) sample_config
    (Ok [sample "A" 10]) (mkWorld (Some (Unparsable "[{")) [])
  = (Ok false,
     mkWorld (Some (Unparsable "[{"))
       [Logged (LogCycleError CorruptStateError);
        Sent (ErrorMsg CorruptStateError)]).
Proof.
  apply (proj1 (proj2 (proj2 (corrupt_state_fails_cycle
           (H:=ascending_iteration) sample_config (Ok [sample "A" 10])
           (mkWorld (Some (Unparsable "[{")) []) "[{" eq_refl)))).
  reflexivity.
Defined.

(** * Serialization *)

(** C9: [from_dict] undoes [to_dict] on every product, with its optional
    fields set or not, so all seven fields survive; a raw record that
    parses is re-serialized with the same sku and price; and saving the
    serialized products, then loading, returns records that parse back
    to the saved products. *)
Theorem save_load_round_trip :
  (∀ p, from_dict (to_dict p) = Ok p)
  ∧ (∀ r p, from_dict r = Ok p →
       raw_sku (to_dict p) = raw_sku r ∧ raw_price (to_dict p) = raw_price r)
  ∧ (∀ products w,
       ∃ w', (save_state (to_dict <$> products) ≫= λ _, load_state) w
             = (Ok (to_dict <$> products), w')
         ∧ state_file w' = Some (Parsable (to_dict <$> products))
         ∧ mapM from_dict (to_dict <$> products) = Ok products).
Proof.
  split; [apply from_dict_to_dict|]. split.
  - intros r p Hp. destruct (from_dict_fields _ _ Hp) as (-> & _ & -> & _).
    done.
  - intros products w. eexists. split; [|split].
    + unfold save_state, load_state. run_cycle. reflexivity.
    + done.
    + induction products as [|p products IH]; [done|].
      by rewrite fmap_cons, mapM_cons, from_dict_to_dict, IH.
Qed.

Lemma save_load_round_trip_witness :
  from_dict (mkRaw (Some "A") (Some "Camera A") (Some 100%float) None
               (Some "https://shop.example/A") (Some "") None)
  = Ok (sample "A" 100)
  ∧ raw_price (to_dict (sample "A" 100)) = Some 100%float.
Proof.
  split; [reflexivity|].
  apply (proj1 (proj2 save_load_round_trip)
           (mkRaw (Some "A") (Some "Camera A") (Some 100%float) None
              (Some "https://shop.example/A") (Some "") None)
           (sample "A" 100) eq_refl).
Defined.

(** * Further properties of the code *)

(** ** Product records *)

(** X1: [from_dict] fails only with a [KeyError], and the key it names is
    the first of sku, title, price, url, image that the dict lacks; it
    succeeds exactly when all five are there.  The two optional keys
    never make it fail: absent, they read as [None]. *)
Theorem from_dict_first_missing_key r :
  (∀ e, from_dict r = Raise e →
     ∃ k before after,
       required_keys = before ++ k :: after ∧ e = KeyError k
       ∧ has_key r k = false
       ∧ Forall (λ k', has_key r k' = true) before)
  ∧ ((∃ p, from_dict r = Ok p)
     ↔ Forall (λ k, has_key r k = true) required_keys)
  ∧ (∀ p, from_dict r = Ok p →
       (raw_original_price r = None → original_price p = None)
       ∧ (raw_discount r = None → discount p = None)).
Proof.
  split; [|split].
  - intros e.
    destruct r as [[s|] [t|] [p|] op [u|] [i|] d]; cbn; intros [= <-].
    all: first
      [ by exists "sku", [], ["title"; "price"; "url"; "image"];
          repeat split; repeat constructor
      | by exists "title", ["sku"], ["price"; "url"; "image"];
          repeat split; repeat constructor
      | by exists "price", ["sku"; "title"], ["url"; "image"];
          repeat split; repeat constructor
      | by exists "url", ["sku"; "title"; "price"], ["image"];
          repeat split; repeat constructor
      | by exists "image", ["sku"; "title"; "price"; "url"], [];
          repeat split; repeat constructor ].
  - rewrite <- from_dict_ok. unfold has_required_keys, required_keys.
    rewrite !Forall_cons, Forall_nil. cbn.
    rewrite !andb_true_iff. tauto.
  - intros p Hp.
    destruct (from_dict_fields _ _ Hp) as (_ & _ & _ & Ho & _ & _ & Hd).
    split; intros Hnone; rewrite Hnone in *; by symmetry.
Qed.

Lemma from_dict_first_missing_key_witness :
  ∃ k, from_dict (mkRaw (Some "A") (Some "Camera") None None None
                    (Some "") None) = Raise (KeyError k)
    ∧ has_key (mkRaw (Some "A") (Some "Camera") None None None
                 (Some "") None) k = false.
Proof.
  destruct (proj1 (from_dict_first_missing_key
                     (mkRaw (Some "A") (Some "Camera") None None None
                        (Some "") None))
              (KeyError "price") eq_refl)
    as (k & before & after & _ & He & Hk & _).
  exists k. split; [by rewrite <- He|exact Hk].
Defined.

(** X2: [__eq__] is an equivalence on products (reflexive, symmetric,
    transitive), and a product is never equal to an object that is not a
    product. *)
Theorem Product_eq_equivalence :
  (∀ p, Product_eq p (ObjProduct p) = true)
  ∧ (∀ p q, Product_eq p (ObjProduct q) = Product_eq q (ObjProduct p))
  ∧ (∀ p q r,
       Product_eq p (ObjProduct q) = true →
       Product_eq q (ObjProduct r) = true →
       Product_eq p (ObjProduct r) = true)
  ∧ (∀ p, Product_eq p ObjOther = false).
Proof.
  split; [|split; [|split]]; cbn.
  - intros p. apply String.eqb_refl.
  - intros p q. apply String.eqb_sym.
  - intros p q r Hpq%String.eqb_eq Hqr%String.eqb_eq.
    apply String.eqb_eq. congruence.
  - done.
Qed.

Lemma Product_eq_equivalence_witness :
  Product_eq (sample "A" 1) (ObjProduct (sample "A" 3)) = true.
Proof.
  apply (proj1 (proj2 (proj2 Product_eq_equivalence))
           (sample "A" 1) (sample "A" 2) (sample "A" 3));
    reflexivity.
Defined.

(** ** More on the change detector *)

Lemma parsed_to_dict ps :
  Forall2 (λ r p, from_dict r = Ok p) (to_dict <$> ps) ps.
Proof.
  induction ps as [|p ps IH]; [constructor|].
  rewrite fmap_cons. constructor; [apply from_dict_to_dict|done].
Qed.

Lemma well_formed_to_dict ps : well_formed (to_dict <$> ps).
Proof.
  induction ps as [|p ps IH]; [constructor|].
  rewrite fmap_cons. constructor; [|done].
  apply from_dict_ok. exists p. apply from_dict_to_dict.
Qed.

Lemma py_eq_ne_false a b : py_eq a b = true → py_ne a b = false.
Proof. rewrite py_ne_eq. by intros ->. Qed.

Lemma difference_empty_both (A B : gset string) :
  A ∖ B = ∅ → B ∖ A = ∅ → A = B.
Proof.
  intros HA HB. apply set_eq. intros x.
  destruct (decide (x ∈ A)) as [Ha|Ha], (decide (x ∈ B)) as [Hb|Hb];
    try tauto.
  - assert (x ∈ A ∖ B) as Hx by (by apply elem_of_difference).
    rewrite HA in Hx. by apply not_elem_of_empty in Hx.
  - assert (x ∈ B ∖ A) as Hx by (by apply elem_of_difference).
    rewrite HB in Hx. by apply not_elem_of_empty in Hx.
Qed.

Section MoreDiffer.
Context `{SetIteration}.

Lemma set_iter_nil (s : gset string) : set_iter s = [] ↔ s = ∅.
Proof.
  split; [|intros ->; apply set_iter_empty].
  intros Hs. apply set_eq. intros x.
  rewrite <- elem_of_set_iter, Hs. set_solver.
Qed.

Lemma length_set_iter (s : gset string) : length (set_iter s) = size s.
Proof. by rewrite (set_iter_perm s). Qed.

Lemma price_changes_nil previous current :
  price_changes (diff_of previous current) = [] ↔
  ∀ s p c, previous !! s = Some p → current !! s = Some c →
    py_eq (price p) (price c) = true.
Proof.
  split.
  - intros Hnil s p c Hp Hc.
    destruct (py_eq (price p) (price c)) eqn:Heq; [done|].
    assert (mkChange c (price p) (price c)
              (PrimFloat.sub (price c) (price p))
            ∈ price_changes (diff_of previous current)) as Hin.
    { apply elem_of_price_changes. exists s. unfold price_change_of.
      rewrite Hp, Hc. cbn. by rewrite py_ne_eq, Heq. }
    rewrite Hnil in Hin. by apply elem_of_nil in Hin.
  - intros Hall. apply elem_of_nil_inv. intros e He.
    apply elem_of_price_changes in He as (s & Hs).
    unfold price_change_of in Hs.
    destruct (previous !! s) as [p|] eqn:Hp; [|done].
    destruct (current !! s) as [c|] eqn:Hc; [|done]. cbn in Hs.
    by rewrite (py_eq_ne_false _ _ (Hall _ _ _ Hp Hc)) in Hs.
Qed.
End MoreDiffer.

Section OwnSnapshot.
Context `{SetIteration}.

Lemma diff_of_same_index (current : gmap string Product) :
  new_products (diff_of current current) = []
  ∧ removed_products (diff_of current current) = [].
Proof.
  cbn. by rewrite difference_diag_L, set_iter_empty.
Qed.

Lemma compare_snapshot_self_equal cur :
  Forall (λ p, self_equal p = true) cur →
  compare (to_dict <$> cur) cur = Ok (mkDiff [] [] []).
Proof.
  intros Hall. rewrite (compare_eq _ cur cur (parsed_to_dict cur)).
  destruct (diff_of_same_index (index_current cur)) as [Hn Hr].
  assert (price_changes (diff_of (index_current cur) (index_current cur))
          = []) as Hc.
  { apply price_changes_nil. intros s p c Hp Hc.
    rewrite Hc in Hp. injection Hp as <-.
    apply index_current_sku in Hc as [_ Hin].
    rewrite Forall_forall in Hall. by apply Hall. }
  destruct (diff_of _ _) as [n r c]. cbn in *. by subst.
Qed.
End OwnSnapshot.

(** X3: a snapshot written by the program ([to_dict] of products) never
    makes [compare] raise.  Comparing a scrape with its own snapshot
    reports nothing new and nothing removed, and a price change only for
    a product whose price is not [==] to itself (a NaN); when every price
    is, the report is empty. *)
Theorem compare_own_snapshot `{SetIteration} :
  (∀ old cur, ∃ d, compare (to_dict <$> old) cur = Ok d)
  ∧ (∀ cur, ∃ d,
       compare (to_dict <$> cur) cur = Ok d
       ∧ new_products d = [] ∧ removed_products d = []
       ∧ ∀ e, e ∈ price_changes d → self_equal (product e) = false)
  ∧ (∀ cur, Forall (λ p, self_equal p = true) cur →
       compare (to_dict <$> cur) cur = Ok (mkDiff [] [] [])).
Proof.
  split; [|split].
  - intros old cur. apply compare_Ok_iff, well_formed_to_dict.
  - intros cur. eexists. split; [apply compare_eq, parsed_to_dict|].
    destruct (diff_of_same_index (index_current cur)) as [Hn Hr].
    split; [done|]. split; [done|].
    intros e (s & Hs)%elem_of_price_changes.
    apply price_change_of_Some in Hs as (p & c & -> & Hp & Hc & Hne & ->);
      [|apply index_current_keyed].
    rewrite Hc in Hp. injection Hp as <-. unfold self_equal, py_eq. cbn.
    unfold py_ne in Hne. by apply negb_true_iff in Hne.
  - apply compare_snapshot_self_equal.
Qed.

Lemma compare_own_snapshot_witness :
  compare (H:=descending_iteration)
    (to_dict <$> [sample "A" 120; sample "B" 50])
    [sample "A" 120; sample "B" 50]
  = Ok (mkDiff [] [] []).
Proof.
  apply (proj2 (proj2 (compare_own_snapshot (H:=descending_iteration)))).
  repeat constructor.
Defined.

(** X4: [has_changes] is false on the report of [compare] exactly when
    both sides have the same set of skus and every sku has [==] prices on
    the two sides. *)
Theorem no_changes_iff_same_skus_and_prices `{SetIteration} prev cur :
  well_formed prev →
  ∃ d previous,
    compare prev cur = Ok d
    ∧ index_previous prev ∅ = Ok previous
    ∧ (has_changes d = false ↔
         current_skus cur = previous_skus prev
         ∧ ∀ s p c,
             previous !! s = Some p → index_current cur !! s = Some c →
             py_eq (price p) (price c) = true).
Proof.
  intros Hwf. destruct (well_formed_parse _ Hwf) as [prevs HF].
  exists (diff_of (index_current prevs) (index_current cur)),
         (index_current prevs).
  split; [by apply compare_eq|]. split; [by apply index_previous_ok|].
  rewrite <- (dom_index_previous _ _ HF).
  unfold current_skus. rewrite <- dom_index_current.
  rewrite <- price_changes_nil.
  pose proof (new_products_skus (index_current prevs) (index_current cur)
                (index_current_keyed cur)) as Hn.
  pose proof (removed_products_skus (index_current prevs)
                (index_current cur) (index_current_keyed prevs)) as Hr.
  unfold has_changes.
  destruct (new_products _) as [|n ns] eqn:En;
    destruct (removed_products _) as [|r rs] eqn:Er;
    destruct (price_changes _) as [|c cs] eqn:Ec; cbn; cbn in Hn, Hr;
    symmetry in Hn, Hr.
  - apply set_iter_nil in Hn. apply set_iter_nil in Hr.
    split; [|done]. intros _. split; [|done].
    by apply difference_empty_both.
  - split; [done|]. by intros [_ ?].
  - split; [done|]. intros [Hdom _].
    by rewrite Hdom, difference_diag_L, set_iter_empty in Hr.
  - split; [done|]. by intros [_ ?].
  - split; [done|]. intros [Hdom _].
    by rewrite Hdom, difference_diag_L, set_iter_empty in Hn.
  - split; [done|]. by intros [_ ?].
  - split; [done|]. intros [Hdom _].
    by rewrite Hdom, difference_diag_L, set_iter_empty in Hn.
  - split; [done|]. by intros [_ ?].
Qed.

Lemma no_changes_iff_same_skus_and_prices_witness :
  ∃ d, compare (H:=ascending_iteration)
         [to_dict (sample "A" 100); to_dict (sample "B" 50)]
         [sample "B" 50; sample "A" 100] = Ok d.
Proof.
  destruct (no_changes_iff_same_skus_and_prices (H:=ascending_iteration)
              [to_dict (sample "A" 100); to_dict (sample "B" 50)]
              [sample "B" 50; sample "A" 100])
    as (d & _ & Hd & _).
  - repeat constructor.
  - by exists d.
Defined.

Lemma size_list_to_set_le (l : list string) :
  (size (list_to_set l : gset string) ≤ length l)%nat.
Proof.
  unfold size, set_size. cbn. apply submseteq_length, NoDup_submseteq.
  - apply NoDup_elements.
  - intros x Hx. by apply elem_of_elements, elem_of_list_to_set in Hx.
Qed.

Lemma size_split (A B : gset string) :
  size (A ∖ B) + size (A ∩ B) = size A.
Proof.
  rewrite <- size_union by set_solver. f_equal. apply set_eq. intros x.
  rewrite elem_of_union, elem_of_difference, elem_of_intersection.
  destruct (decide (x ∈ B)); tauto.
Qed.

Lemma size_split_r (A B : gset string) :
  size (A ∖ B) + size (B ∩ A) = size A.
Proof.
  rewrite <- size_union by set_solver. f_equal. apply set_eq. intros x.
  rewrite elem_of_union, elem_of_difference, elem_of_intersection.
  destruct (decide (x ∈ B)); tauto.
Qed.

(** X5: the report is never larger than its inputs: there are as many
    new products as current skus absent from the previous side, as many
    removed products as previous skus absent from the current side, and
    new products plus price changes do not outnumber the scraped
    records, nor removed products plus price changes the snapshot's. *)
Theorem report_size_bounds `{SetIteration} prev cur :
  well_formed prev →
  ∃ d, compare prev cur = Ok d
    ∧ length (new_products d) = size (current_skus cur ∖ previous_skus prev)
    ∧ length (removed_products d)
      = size (previous_skus prev ∖ current_skus cur)
    ∧ (length (new_products d) + length (price_changes d)
       ≤ length cur)%nat
    ∧ (length (removed_products d) + length (price_changes d)
       ≤ length prev)%nat.
Proof.
  intros Hwf. destruct (compare_skus prev cur Hwf) as (d & Hd & Hn & Hr & Hc).
  destruct (well_formed_parse _ Hwf) as [prevs HF].
  exists d. split; [done|].
  apply (f_equal length) in Hn, Hr.
  rewrite length_fmap, length_set_iter in Hn, Hr.
  apply sublist_length in Hc. rewrite length_fmap, length_set_iter in Hc.
  split; [done|]. split; [done|].
  pose proof (size_list_to_set_le (sku <$> cur)) as Hcur.
  pose proof (size_list_to_set_le (omap raw_sku prev)) as Hprev.
  rewrite length_fmap in Hcur.
  rewrite (parsed_skus _ _ HF), length_fmap in Hprev.
  rewrite <- (Forall2_length _ _ _ HF) in Hprev.
  rewrite <- (parsed_skus _ _ HF) in Hprev.
  pose proof (size_split (current_skus cur) (previous_skus prev)) as Hsc.
  pose proof (size_split_r (previous_skus prev) (current_skus cur)) as Hsp.
  unfold current_skus, previous_skus in *. split; lia.
Qed.

Lemma report_size_bounds_witness :
  ∃ d, compare (H:=ascending_iteration)
         [to_dict (sample "A" 100); to_dict (sample "A" 90)]
         [sample "A" 120; sample "B" 50; sample "B" 60] = Ok d
    ∧ (length (new_products d) + length (price_changes d) ≤ 3)%nat.
Proof.
  destruct (report_size_bounds (H:=ascending_iteration)
              [to_dict (sample "A" 100); to_dict (sample "A" 90)]
              [sample "A" 120; sample "B" 50; sample "B" 60])
    as (d & Hd & _ & _ & Hle & _).
  - repeat constructor.
  - by exists d.
Defined.

(** ** Order of the inputs *)

Lemma last_with_sku_NoDup_iff (l : list Product) s p :
  NoDup (sku <$> l) → last_with_sku s l = Some p ↔ p ∈ l ∧ sku p = s.
Proof.
  intros Hnd. split.
  - intros Hp. by apply last_with_sku_Some in Hp as [? ?].
  - intros [Hin <-]. by apply last_with_sku_NoDup.
Qed.

Lemma index_current_Permutation (l l' : list Product) :
  NoDup (sku <$> l) → l ≡ₚ l' → index_current l = index_current l'.
Proof.
  intros Hnd Hperm. assert (NoDup (sku <$> l')) as Hnd' by by rewrite <- Hperm.
  apply map_eq. intros s. rewrite !index_current_lookup.
  destruct (last_with_sku s l) as [p|] eqn:Hl.
  - symmetry. apply last_with_sku_NoDup_iff; [done|].
    apply last_with_sku_NoDup_iff in Hl; [|done]. by rewrite <- Hperm.
  - destruct (last_with_sku s l') as [q|] eqn:Hl'; [|done].
    apply last_with_sku_NoDup_iff in Hl'; [|done].
    rewrite <- Hperm in Hl'.
    apply last_with_sku_NoDup_iff in Hl'; [|done]. congruence.
Qed.

Lemma parsed_Permutation prev prev' :
  prev ≡ₚ prev' → ∀ prevs,
  Forall2 (λ r p, from_dict r = Ok p) prev prevs →
  ∃ prevs', Forall2 (λ r p, from_dict r = Ok p) prev' prevs'
            ∧ prevs ≡ₚ prevs'.
Proof.
  induction 1 as [|r l l' _ IH|r1 r2 l|l1 l2 l3 _ IH1 _ IH2]; intros prevs HF.
  - apply Forall2_nil_inv_l in HF as ->. by exists [].
  - apply Forall2_cons_inv_l in HF as (p & ps & Hp & HF & ->).
    destruct (IH _ HF) as (ps' & HF' & Hperm).
    exists (p :: ps'). split; [by constructor|by constructor].
  - apply Forall2_cons_inv_l in HF as (p1 & ps & Hp1 & HF & ->).
    apply Forall2_cons_inv_l in HF as (p2 & ps' & Hp2 & HF & ->).
    exists (p2 :: p1 :: ps'). split; [by repeat constructor|].
    apply perm_swap.
  - destruct (IH1 _ HF) as (ps2 & HF2 & Hp2).
    destruct (IH2 _ HF2) as (ps3 & HF3 & Hp3).
    exists ps3. split; [done|]. by etrans.
Qed.

(** X6: when no sku is repeated within a side, permuting the records of
    the snapshot or the products of the scrape changes at most the order
    within the lists of the report: whatever the set iteration orders of
    the two calls, their new products, removed products and price
    changes are the same up to order. *)
Theorem compare_input_order_permutes_report (H1 H2 : SetIteration)
    prev prev' cur cur' :
  well_formed prev →
  NoDup (omap raw_sku prev) → NoDup (sku <$> cur) →
  prev ≡ₚ prev' → cur ≡ₚ cur' →
  ∃ d d',
    compare (H:=H1) prev cur = Ok d
    ∧ compare (H:=H2) prev' cur' = Ok d'
    ∧ new_products d' ≡ₚ new_products d
    ∧ removed_products d' ≡ₚ removed_products d
    ∧ price_changes d' ≡ₚ price_changes d.
Proof.
  intros Hwf Hndp Hndc Hpp Hpc.
  destruct (well_formed_parse _ Hwf) as [prevs HF].
  destruct (parsed_Permutation _ _ Hpp _ HF) as (prevs' & HF' & Hperm).
  rewrite (parsed_skus _ _ HF) in Hndp.
  eexists _, _.
  split; [apply (compare_eq (H:=H1) _ cur _ HF)|].
  split; [apply (compare_eq (H:=H2) _ cur' _ HF')|].
  rewrite <- (index_current_Permutation _ _ Hndp Hperm),
          <- (index_current_Permutation _ _ Hndc Hpc).
  assert (∀ s : gset string,
            set_iter (SetIteration:=H2) s ≡ₚ set_iter (SetIteration:=H1) s)
    as Hiter.
  { intros s. by rewrite !set_iter_perm. }
  cbn. split; [|split]; apply omap_Permutation, Hiter.
Qed.

Lemma compare_input_order_permutes_report_witness :
  ∃ d d',
    compare (H:=ascending_iteration)
      [to_dict (sample "A" 100); to_dict (sample "C" 7)]
      [sample "A" 120; sample "B" 50; sample "D" 1] = Ok d
    ∧ compare (H:=descending_iteration)
        [to_dict (sample "C" 7); to_dict (sample "A" 100)]
        [sample "B" 50; sample "A" 120; sample "D" 1] = Ok d'
    ∧ new_products d' ≡ₚ new_products d.
Proof.
  destruct (compare_input_order_permutes_report
              ascending_iteration descending_iteration
              [to_dict (sample "A" 100); to_dict (sample "C" 7)]
              [to_dict (sample "C" 7); to_dict (sample "A" 100)]
              [sample "A" 120; sample "B" 50; sample "D" 1]
              [sample "B" 50; sample "A" 120; sample "D" 1])
    as (d & d' & Hd & Hd' & Hn & _).
  - repeat constructor.
  - apply (bool_decide_unpack _). vm_compute. exact I.
  - apply (bool_decide_unpack _). vm_compute. exact I.
  - apply perm_swap.
  - apply perm_swap.
  - by exists d, d'.
Defined.

(** ** The summary line *)

Lemma pretty_N_go_digit x s :
  (0 < x)%N → ∃ d s', pretty_N_go x s = String (pretty_N_char d) s'.
Proof.
  revert s. induction (N.lt_wf_0 x) as [x _ IH]; intros s Hx.
  rewrite pretty_N_go_step by done.
  destruct (N.eq_dec (x `div` 10)%N 0%N) as [Hzero|Hpos].
  - rewrite Hzero, pretty_N_go_0. eauto.
  - apply IH; [by apply N.div_lt|]. by apply N.neq_0_lt_0.
Qed.

Lemma pretty_N_char_not_N d : pretty_N_char d ≠ "N"%char.
Proof. unfold pretty_N_char. by repeat case_match. Qed.

Lemma count_part_not_N n label rest tail :
  count_part n label +:+ rest ≠ String "N" tail.
Proof.
  unfold count_part, pretty, pretty_nat, pretty, pretty_N.
  case_decide as Hn; [done|].
  destruct (pretty_N_go_digit (N.of_nat n) "") as (d & s' & ->); [lia|].
  cbn. intros [= Hd _]. by apply pretty_N_char_not_N in Hd.
Qed.

Lemma concat_head sep x xs :
  ∃ rest, String.concat sep (x :: xs) = x +:+ rest.
Proof.
  destruct xs as [|y ys]; cbn; [|eauto].
  exists "". induction x as [|a x IH]; [done|].
  change (String a x = String a (x +:+ "")). by rewrite <- IH.
Qed.

(** X7: the summary of a report is the text "No changes" exactly when
    the report has no changes; otherwise it is its counts joined by a
    comma and a space: for each non-empty list, in the order new,
    removed, price changes, the length in decimal and the label.  So a
    report with 3 new products, 1 removed and 2 price changes is
    summarized as "3 new, 1 removed, 2 price changes". *)
Theorem get_summary_no_changes d :
  (get_summary d = "No changes" ↔ has_changes d = false)
  ∧ (has_changes d = true →
       get_summary d = String.concat ", " (summary_parts d))
  ∧ (length (new_products d) = 3 → length (removed_products d) = 1 →
     length (price_changes d) = 2 →
     get_summary d = "3 new, 1 removed, 2 price changes")
  ∧ (new_products d = [] → length (removed_products d) = 12 →
     price_changes d = [] → get_summary d = "12 removed").
Proof.
  split; [|split; [|split]].
  - unfold get_summary, has_changes.
    destruct (new_products d) as [|n ns], (removed_products d) as [|r rs],
      (price_changes d) as [|c cs];
      cbn -[count_part String.concat]; try done.
    all: split; [|done]; intros Heq.
    all: match type of Heq with
         | String.concat ?sep (?x :: ?xs) = _ =>
             destruct (concat_head sep x xs) as [rest Hrest];
             rewrite Hrest in Heq; by apply count_part_not_N in Heq
         end.
  - unfold get_summary, has_changes, summary_parts, count_part.
    by destruct (new_products d) as [|n ns],
      (removed_products d) as [|r rs], (price_changes d) as [|c cs].
  - unfold get_summary.
    destruct (new_products d) as [|n1 [|n2 [|n3 [|n4 ns]]]]; try done.
    destruct (removed_products d) as [|r1 [|r2 rs]]; try done.
    destruct (price_changes d) as [|c1 [|c2 [|c3 cs]]]; done.
  - unfold get_summary. intros -> Hr ->.
    destruct (removed_products d) as [|r rs]; [discriminate Hr|].
    do 11 (destruct rs as [|? rs]; [discriminate Hr|]).
    destruct rs as [|? rs]; [|discriminate Hr].
    vm_compute. reflexivity.
Qed.

Lemma get_summary_no_changes_witness :
  get_summary
    (mkDiff [sample "A" 1; sample "B" 2; sample "C" 3] [sample "D" 4]
       [mkChange (sample "E" 5) 4 5 1; mkChange (sample "F" 7) 9 7 (-2)])
  = "3 new, 1 removed, 2 price changes".
Proof.
  apply (proj1 (proj2 (proj2 (get_summary_no_changes
           (mkDiff [sample "A" 1; sample "B" 2; sample "C" 3] [sample "D" 4]
              [mkChange (sample "E" 5) 4 5 1;
               mkChange (sample "F" 7) 9 7 (-2)])))));
    reflexivity.
Defined.

Example get_summary_sample :
  get_summary
    (mkDiff [sample "A" 1; sample "B" 2; sample "C" 3] [sample "D" 4]
       [mkChange (sample "E" 5) 4 5 1; mkChange (sample "F" 7) 9 7 (-2)])
  = "3 new, 1 removed, 2 price changes".
Proof. vm_compute. reflexivity. Qed.

(** ** Price texts *)

Lemma str_remove_app c a b :
  str_remove c (a +:+ b) = str_remove c a +:+ str_remove c b.
Proof.
  induction a as [|x a IH]; [done|].
  change (String x a +:+ b) with (String x (a +:+ b)). cbn [str_remove].
  destruct (Ascii.eqb x c); [exact IH|]. by rewrite IH.
Qed.

(** X8: [_parse_price] does not see the characters [$] and [,]: a text
    with one of them inserted anywhere parses like the text without it
    (same float, or same error), whatever [strip] and [float] do. *)
Theorem parse_price_ignores_currency_marks
    (py_strip : string → string) (py_float : string → result pyfloat) a b :
  _parse_price py_strip py_float (a +:+ "$" +:+ b)
  = _parse_price py_strip py_float (a +:+ b)
  ∧ _parse_price py_strip py_float (a +:+ "," +:+ b)
    = _parse_price py_strip py_float (a +:+ b).
Proof.
  unfold _parse_price. split; do 2 f_equal; by rewrite !str_remove_app.
Qed.

(** ** Notifications *)

Lemma for_each_emit {A} (l : list A) (f : A → Event) w :
  for_each l (λ x, emit (f x)) w = (Ok tt, logged w (f <$> l)).
Proof.
  revert w. induction l as [|x l IH]; intros [file events].
  { unfold logged. cbn. by rewrite app_nil_r. }
  cbn [for_each]. unfold mbind, cycle_bind. unfold emit at 1.
  cbv beta iota. rewrite IH. unfold logged. cbn. by rewrite <- app_assoc.
Qed.

Lemma send_diff_notifications_run d site w :
  send_diff_notifications d site w = (Ok tt, logged w (notify_events d site)).
Proof.
  unfold send_diff_notifications, notify_events.
  destruct (has_changes d); cbn; [|done].
  unfold mbind, cycle_bind.
  rewrite (for_each_emit _ (λ p, Sent (NewProductMsg p site))).
  rewrite (for_each_emit _ (λ p, Sent (RemovedProductMsg p site))).
  rewrite (for_each_emit _ (λ c, Sent (PriceChangeMsg c site))).
  unfold logged, diff_messages. cbn. by rewrite <- !app_assoc.
Qed.

(** ** One cycle, case by case *)

Section CycleFacts.
Context `{SetIteration}.

Lemma run_scrape_cycle_loaded config cur w prev :
  load_state w = (Ok prev, w) →
  Main.run_scrape_cycle config (Ok cur) w
  = (Ok tt,
     match cur with
     | [] => logged w [Logged LogNoProducts]
     | _ :: _ =>
         if is_first_run prev then completed w cur [Logged LogFirstRun]
         else match compare prev cur with
              | Ok d => completed w cur (compare_events d (site_name config))
              | Raise e => failed w e
              end
     end).
Proof.
  intros Hload.
  unfold Main.run_scrape_cycle, Main.run_scrape_cycle_sync, try_except.
  rewrite (cycle_bind_Ok _ _ _ _ _ (cycle_bind_Ok _ _ _ _ _ Hload)).
  destruct w as [file events].
  destruct cur as [|c cur]; [by run_cycle|].
  destruct prev as [|r prev].
  { run_cycle. unfold completed. cbn. by rewrite <- !app_assoc. }
  cbv beta. cbn [fst snd nonempty negb is_first_run length Nat.eqb].
  unfold get_products_from_state.
  destruct (compare (r :: prev) (c :: cur)) as [d|e] eqn:Hcmp.
  - unfold completed, compare_events.
    destruct (has_changes d) eqn:Hch; run_cycle; rewrite Hch.
    + rewrite send_diff_notifications_run. run_cycle.
      by rewrite <- !app_assoc.
    + run_cycle. by rewrite <- !app_assoc.
  - unfold failed. run_cycle. by rewrite <- !app_assoc.
Qed.

Lemma run_scrape_cycle_not_loaded config scrape w e :
  load_state w = (Raise e, w) →
  Main.run_scrape_cycle config scrape w = (Ok tt, failed w e).
Proof.
  intros Hload.
  unfold Main.run_scrape_cycle, Main.run_scrape_cycle_sync, try_except.
  rewrite (cycle_bind_Raise _ _ _ _ _ (cycle_bind_Raise _ _ _ _ _ Hload)).
  unfold failed. run_cycle. by rewrite <- app_assoc.
Qed.

Lemma run_scrape_cycle_scrape_raises config w prev e :
  load_state w = (Ok prev, w) →
  Main.run_scrape_cycle config (Raise e) w = (Ok tt, failed w e).
Proof.
  intros Hload.
  unfold Main.run_scrape_cycle, Main.run_scrape_cycle_sync, try_except.
  rewrite (cycle_bind_Raise _ _ _ _ _ (cycle_bind_Ok _ _ _ _ _ Hload)).
  unfold failed. run_cycle. by rewrite <- app_assoc.
Qed.

Lemma load_state_cases w :
  (∃ prev, load_state w = (Ok prev, w))
  ∨ load_state w = (Raise CorruptStateError, w).
Proof.
  unfold load_state. destruct (state_file w) as [[records|bytes]|]; eauto.
Qed.
End CycleFacts.

Lemma from_dict_Raise r e :
  from_dict r = Raise e → ∃ k, e = KeyError k ∧ k ∈ required_keys.
Proof.
  unfold from_dict, required_keys.
  destruct r as [[s|] [t|] [p|] op [u|] [i|] d]; cbn; intros [= <-];
    eexists; (split; [reflexivity|]); set_solver.
Qed.

Lemma index_previous_Raise prev acc e :
  index_previous prev acc = Raise e →
  ∃ k, e = KeyError k ∧ k ∈ required_keys.
Proof.
  revert acc. induction prev as [|r prev IH]; intros acc; [done|]. cbn.
  destruct (raw_sku r) as [s|]; cbn.
  - destruct (from_dict r) as [p|e'] eqn:Hr; cbn; [apply IH|].
    intros [= <-]. by eapply from_dict_Raise.
  - intros [= <-]. exists "sku". split; [done|]. unfold required_keys.
    set_solver.
Qed.

Lemma compare_Raise `{SetIteration} prev :
  ¬ well_formed prev →
  ∃ k, k ∈ required_keys ∧ ∀ cur, compare prev cur = Raise (KeyError k).
Proof.
  intros Hnwf. destruct (index_previous prev ∅) as [m|e] eqn:Hm.
  { destruct Hnwf. by eapply index_previous_Ok_well_formed. }
  destruct (index_previous_Raise _ _ _ Hm) as (k & -> & Hk).
  exists k. split; [done|]. intros cur. unfold compare. by rewrite Hm.
Qed.

Lemma filter_change_notifications_fmap {A} (f : A → Message) (l : list A) :
  (∀ x, is_change_notification (Sent (f x)) = true) →
  length (filter (λ ev, is_change_notification ev = true) (Sent ∘ f <$> l))
  = length l.
Proof.
  intros Hf. induction l as [|x l IH]; [done|].
  rewrite fmap_cons, filter_cons_True by apply Hf. cbn. by rewrite IH.
Qed.

(** X9: [send_diff_notifications] never raises and never touches the
    state file; it makes exactly one send per entry of the report, the
    new products first, then the removed ones, then the price changes,
    and when the report has no changes it sends nothing. *)
Theorem notifications_follow_report d site w :
  send_diff_notifications d site w = (Ok tt, logged w (notify_events d site))
  ∧ (has_changes d = true → notify_events d site = diff_messages d site)
  ∧ (has_changes d = false →
       notify_events d site = [Logged LogNothingToNotify])
  ∧ length (filter (λ ev, is_change_notification ev = true)
              (notify_events d site))
    = (length (new_products d) + length (removed_products d)
       + length (price_changes d))%nat.
Proof.
  split; [apply send_diff_notifications_run|].
  unfold notify_events, has_changes, diff_messages.
  split; [by intros ->|]. split; [by intros ->|].
  destruct (nonempty (new_products d) || nonempty (removed_products d)
            || nonempty (price_changes d)) eqn:Hch.
  - rewrite !filter_app, !length_app.
    rewrite (filter_change_notifications_fmap
               (λ p, NewProductMsg p site)) by done.
    rewrite (filter_change_notifications_fmap
               (λ p, RemovedProductMsg p site)) by done.
    rewrite (filter_change_notifications_fmap
               (λ c, PriceChangeMsg c site)) by done.
    lia.
  - destruct (new_products d), (removed_products d), (price_changes d);
      done.
Qed.

Lemma notifications_follow_report_witness :
  notify_events (mkDiff [sample "B" 50] [] []) "shop"
  = diff_messages (mkDiff [sample "B" 50] [] []) "shop".
Proof.
  apply (proj1 (proj2 (notifications_follow_report
                         (mkDiff [sample "B" 50] [] []) "shop"
                         (mkWorld None [])))).
  reflexivity.
Defined.

(** X10: a cycle of [main.py] whose snapshot loads with at least one
    record, all with the required keys, and whose scrape returns at
    least one product, compares, notifies when the report has changes
    (logging that there are none otherwise), and then always saves the
    scraped products as the new snapshot. *)
Theorem cycle_compares_notifies_then_saves `{SetIteration}
    config prev cur w :
  load_state w = (Ok prev, w) → prev ≠ [] → well_formed prev → cur ≠ [] →
  ∃ d, compare prev cur = Ok d
    ∧ Main.run_scrape_cycle config (Ok cur) w
      = (Ok tt, completed w cur (compare_events d (site_name config)))
    ∧ (has_changes d = true →
         compare_events d (site_name config)
         = Logged LogChangesDetected :: diff_messages d (site_name config))
    ∧ (has_changes d = false →
         compare_events d (site_name config) = [Logged LogNoChanges]).
Proof.
  intros Hload Hprev Hwf Hcur.
  destruct (proj2 (compare_Ok_iff prev cur) Hwf) as [d Hd].
  exists d. split; [done|]. split.
  - rewrite (run_scrape_cycle_loaded _ _ _ _ Hload).
    destruct cur as [|c cur]; [done|]. destruct prev as [|r prev]; [done|].
    cbn [is_first_run length Nat.eqb]. by rewrite Hd.
  - unfold compare_events, notify_events. split; by intros ->.
Qed.

Lemma cycle_compares_notifies_then_saves_witness :
  ∃ d, compare (H:=ascending_iteration) [to_dict (sample "A" 100)]
         [sample "A" 120; sample "B" 50] = Ok d
    ∧ Main.run_scrape_cycle (H:=ascending_iteration) sample_config
        (Ok [sample "A" 120; sample "B" 50])
        (mkWorld (Some (Parsable [to_dict (sample "A" 100)])) [])
      = (Ok tt,
         completed (mkWorld (Some (Parsable [to_dict (sample "A" 100)])) [])
           [sample "A" 120; sample "B" 50]
           (compare_events d "digiDirect")).
Proof.
  destruct (cycle_compares_notifies_then_saves (H:=ascending_iteration)
              sample_config [to_dict (sample "A" 100)]
              [sample "A" 120; sample "B" 50]
              (mkWorld (Some (Parsable [to_dict (sample "A" 100)])) []))
    as (d & Hd & Hrun & _).
  - reflexivity.
  - discriminate.
  - repeat constructor.
  - discriminate.
  - by exists d.
Defined.

(** X11: a snapshot that holds a record lacking a required key blocks
    the program: every cycle that scrapes at least one product fails
    with the [KeyError] of that key, whatever was scraped, sends the
    error notification, and leaves the state file as it is, so that the
    next cycle fails in the same way. *)
Theorem malformed_snapshot_blocks_cycles `{SetIteration} config prev :
  prev ≠ [] → ¬ well_formed prev →
  ∃ k, k ∈ required_keys
    ∧ ∀ cur w,
        state_file w = Some (Parsable prev) → cur ≠ [] →
        Main.run_scrape_cycle config (Ok cur) w
        = (Ok tt, failed w (KeyError k))
        ∧ state_file (failed w (KeyError k)) = Some (Parsable prev).
Proof.
  intros Hprev Hnwf. destruct (compare_Raise prev Hnwf) as (k & Hk & Hcmp).
  exists k. split; [done|]. intros cur w Hfile Hcur.
  split; [|done].
  assert (load_state w = (Ok prev, w)) as Hload
    by (unfold load_state; by rewrite Hfile).
  rewrite (run_scrape_cycle_loaded _ _ _ _ Hload).
  destruct cur as [|c cur]; [done|]. destruct prev as [|r prev]; [done|].
  cbn [is_first_run length Nat.eqb]. by rewrite Hcmp.
Qed.

Lemma malformed_snapshot_blocks_cycles_witness :
  ∃ k, Main.run_scrape_cycle (H:=ascending_iteration) sample_config
         (Ok [sample "A" 120])
         (mkWorld (Some (Parsable [mkRaw (Some "A") None (Some 100%float)
                                     None (Some "") (Some "") None])) [])
       = (Ok tt,
          failed (mkWorld (Some (Parsable
                    [mkRaw (Some "A") None (Some 100%float) None (Some "")
                       (Some "") None])) [])
            (KeyError k)).
Proof.
  destruct (malformed_snapshot_blocks_cycles (H:=ascending_iteration)
              sample_config
              [mkRaw (Some "A") None (Some 100%float) None (Some "")
                 (Some "") None])
    as (k & _ & Hrun).
  - discriminate.
  - intros Hwf. apply Forall_cons in Hwf as [Hr _]. discriminate Hr.
  - exists k. apply Hrun; [reflexivity|discriminate].
Defined.

(** X12: when the scraper raises, the cycle of [main.py] does not
    raise: it logs the error, sends one error notification and leaves
    the state file alone.  The error reported is the scraper's, unless
    the state file was unreadable, which is found first. *)
Theorem scrape_error_is_contained `{SetIteration} config e w :
  ∃ e', Main.run_scrape_cycle config (Raise e) w = (Ok tt, failed w e')
    ∧ state_file (failed w e') = state_file w
    ∧ ((∃ prev, load_state w = (Ok prev, w)) → e' = e)
    ∧ (load_state w = (Raise CorruptStateError, w) →
       e' = CorruptStateError).
Proof.
  destruct (load_state_cases w) as [[prev Hload]|Hload].
  - exists e. rewrite (run_scrape_cycle_scrape_raises _ _ _ _ Hload).
    repeat split; try done. rewrite Hload. discriminate.
  - exists CorruptStateError.
    rewrite (run_scrape_cycle_not_loaded _ _ _ _ Hload).
    repeat split; try done. intros [prev Hprev]. rewrite Hload in Hprev.
    discriminate.
Qed.

Lemma scrape_error_is_contained_witness :
  Main.run_scrape_cycle (H:=ascending_iteration) sample_config
    (Raise (ScrapeError "timeout")) (mkWorld None [])
  = (Ok tt, failed (mkWorld None []) (ScrapeError "timeout")).
Proof.
  destruct (scrape_error_is_contained (H:=ascending_iteration)
              sample_config (ScrapeError "timeout") (mkWorld None []))
    as (e' & Hrun & _ & He & _).
  rewrite Hrun. f_equal. f_equal. apply He. by exists [].
Defined.

(** X13: a cycle of [main.py] never raises, only appends to the trace,
    and either leaves the state file as it was or replaces it by the
    serialization of a non-empty scrape.  Hence a state file that loads
    with well-formed records still does after the cycle, and a snapshot
    that was not empty is never emptied (the first-run branch is not
    taken again). *)
Theorem cycle_keeps_snapshot_sound `{SetIteration} config scrape w :
  ∃ w' evs,
    Main.run_scrape_cycle config scrape w = (Ok tt, w')
    ∧ trace w' = trace w ++ evs
    ∧ (state_file w' = state_file w
       ∨ ∃ cur, scrape = Ok cur ∧ cur ≠ []
           ∧ state_file w' = Some (Parsable (to_dict <$> cur)))
    ∧ (snapshot_loads w → snapshot_loads w')
    ∧ (∀ prev, load_state w = (Ok prev, w) → prev ≠ [] →
         ∃ prev', load_state w' = (Ok prev', w') ∧ prev' ≠ []).
Proof.
  assert (∀ cur evs, cur ≠ [] →
    ∃ w' evs',
      (Ok tt, completed w cur evs) = (Ok tt, w')
      ∧ trace w' = trace w ++ evs'
      ∧ (state_file w' = state_file w
         ∨ ∃ cur0, Ok cur = Ok cur0 ∧ cur0 ≠ []
             ∧ state_file w' = Some (Parsable (to_dict <$> cur0)))
      ∧ (snapshot_loads w → snapshot_loads w')
      ∧ (∀ prev, load_state w = (Ok prev, w) → prev ≠ [] →
           ∃ prev', load_state w' = (Ok prev', w') ∧ prev' ≠ []))
    as Hcompleted.
  { intros cur evs Hcur. eexists _, _. split; [reflexivity|].
    split; [reflexivity|]. split; [right; by exists cur|]. split.
    - intros _. apply well_formed_to_dict.
    - intros prev _ _. eexists. split; [reflexivity|].
      by destruct cur. }
  assert (∀ evs,
    ∃ w' evs',
      (Ok tt, logged w evs) = (Ok tt, w')
      ∧ trace w' = trace w ++ evs'
      ∧ (state_file w' = state_file w
         ∨ ∃ cur0, scrape = Ok cur0 ∧ cur0 ≠ []
             ∧ state_file w' = Some (Parsable (to_dict <$> cur0)))
      ∧ (snapshot_loads w → snapshot_loads w')
      ∧ (∀ prev, load_state w = (Ok prev, w) → prev ≠ [] →
           ∃ prev', load_state w' = (Ok prev', w') ∧ prev' ≠ []))
    as Hlogged.
  { intros evs. eexists _, _. split; [reflexivity|].
    split; [reflexivity|]. split; [by left|]. split; [done|].
    intros prev Hload Hprev. exists prev. split; [|done].
    unfold load_state in *. cbn.
    destruct (state_file w) as [[records|bytes]|]; congruence. }
  destruct (load_state_cases w) as [[prev Hload]|Hload].
  - destruct scrape as [cur|e].
    + rewrite (run_scrape_cycle_loaded _ _ _ _ Hload).
      destruct cur as [|c cur]; [apply Hlogged|].
      destruct (is_first_run prev); [by apply Hcompleted|].
      destruct (compare prev (c :: cur)) as [d|e];
        [by apply Hcompleted|apply Hlogged].
    + rewrite (run_scrape_cycle_scrape_raises _ _ _ _ Hload).
      apply Hlogged.
  - rewrite (run_scrape_cycle_not_loaded _ _ _ _ Hload). apply Hlogged.
Qed.

Lemma cycle_keeps_snapshot_sound_witness :
  ∃ w', Main.run_scrape_cycle (H:=ascending_iteration) sample_config
          (Ok [sample "A" 120])
          (mkWorld (Some (Parsable [to_dict (sample "A" 100)])) [])
        = (Ok tt, w')
    ∧ snapshot_loads w'.
Proof.
  destruct (cycle_keeps_snapshot_sound (H:=ascending_iteration)
              sample_config (Ok [sample "A" 120])
              (mkWorld (Some (Parsable [to_dict (sample "A" 100)])) []))
    as (w' & evs & Hrun & _ & _ & Hsound & _).
  exists w'. split; [exact Hrun|]. apply Hsound. repeat constructor.
Defined.

(** X14: a cycle whose scrape is, product for product, what the
    snapshot holds sends nothing: it logs that there are no changes and
    saves the same snapshot again (provided no price is a NaN). *)
Theorem unchanged_scrape_is_silent `{SetIteration} config cur w :
  state_file w = Some (Parsable (to_dict <$> cur)) → cur ≠ [] →
  Forall (λ p, self_equal p = true) cur →
  Main.run_scrape_cycle config (Ok cur) w
  = (Ok tt, completed w cur [Logged LogNoChanges]).
Proof.
  intros Hfile Hcur Hall.
  assert (load_state w = (Ok (to_dict <$> cur), w)) as Hload
    by (unfold load_state; by rewrite Hfile).
  rewrite (run_scrape_cycle_loaded _ _ _ _ Hload).
  destruct cur as [|c cur]; [done|].
  rewrite (compare_snapshot_self_equal _ Hall). done.
Qed.

Lemma unchanged_scrape_is_silent_witness :
  Main.run_scrape_cycle (H:=descending_iteration) sample_config
    (Ok [sample "A" 120; sample "B" 50])
    (mkWorld (Some (Parsable (to_dict <$> [sample "A" 120; sample "B" 50])))
       [])
  = (Ok tt,
     completed
       (mkWorld (Some (Parsable (to_dict <$> [sample "A" 120; sample "B" 50])))
          [])
       [sample "A" 120; sample "B" 50] [Logged LogNoChanges]).
Proof.
  apply (unchanged_scrape_is_silent (H:=descending_iteration)).
  - reflexivity.
  - discriminate.
  - repeat constructor.
Defined.

(** ** The single run *)

Section SingleRunFacts.
Context `{SetIteration}.

Lemma single_run_loaded config cur w prev b :
  validate config = Ok b → load_state w = (Ok prev, w) →
  SingleRun.main config (Ok cur) w
  = match cur with
    | [] => (Ok false, logged w [Logged LogNoProducts])
    | _ :: _ =>
        if is_first_run prev
        then (Ok true, completed w cur [Logged LogFirstRun])
        else match compare prev cur with
             | Ok d =>
                 (Ok true,
                  completed w cur (compare_events d (site_name config)))
             | Raise e => (Ok false, failed w e)
             end
    end.
Proof.
  intros Hv Hload. pose proof (validate_Ok_token _ _ Hv) as Htok.
  unfold SingleRun.main, SingleRun.run_scrape_sync, try_except, new_notifier.
  rewrite Hv, Htok.
  rewrite (cycle_bind_Ok (lift (Ok b)) _ w b w eq_refl).
  rewrite (cycle_bind_Ok _ _ _ _ _ (cycle_bind_Ok _ _ _ _ _ Hload)).
  destruct w as [file events].
  destruct cur as [|c cur]; [by run_cycle|].
  destruct prev as [|r prev].
  { run_cycle. unfold completed. cbn. by rewrite <- !app_assoc. }
  cbv beta. cbn [fst snd nonempty negb is_first_run length Nat.eqb].
  rewrite (cycle_bind_Ok (lift (Ok tt)) _ _ tt _ eq_refl).
  unfold get_products_from_state.
  destruct (compare (r :: prev) (c :: cur)) as [d|e] eqn:Hcmp.
  - unfold completed, compare_events.
    destruct (has_changes d) eqn:Hch; run_cycle; rewrite Hch.
    + rewrite send_diff_notifications_run. run_cycle.
      by rewrite <- !app_assoc.
    + run_cycle. by rewrite <- !app_assoc.
  - unfold failed. run_cycle. by rewrite <- !app_assoc.
Qed.

Lemma single_run_invalid_config config scrape w e :
  validate config = Raise e →
  SingleRun.main config scrape w
  = (Ok false,
     logged w (Logged (LogCycleError e)
               :: if falsy (telegram_bot_token config) then []
                  else [Sent (ErrorMsg e)])).
Proof.
  intros Hv. unfold SingleRun.main, try_except, new_notifier. rewrite Hv.
  destruct (falsy (telegram_bot_token config)); run_cycle;
    by rewrite <- ?app_assoc.
Qed.

Lemma single_run_not_loaded config scrape w b e :
  validate config = Ok b → load_state w = (Raise e, w) →
  SingleRun.main config scrape w = (Ok false, failed w e).
Proof.
  intros Hv Hload. pose proof (validate_Ok_token _ _ Hv) as Htok.
  unfold SingleRun.main, SingleRun.run_scrape_sync, try_except, new_notifier.
  rewrite Hv, Htok.
  rewrite (cycle_bind_Ok (lift (Ok b)) _ w b w eq_refl).
  rewrite (cycle_bind_Raise _ _ _ _ _ (cycle_bind_Raise _ _ _ _ _ Hload)).
  unfold failed. run_cycle. by rewrite <- app_assoc.
Qed.

Lemma single_run_scrape_raises config w b prev e :
  validate config = Ok b → load_state w = (Ok prev, w) →
  SingleRun.main config (Raise e) w = (Ok false, failed w e).
Proof.
  intros Hv Hload. pose proof (validate_Ok_token _ _ Hv) as Htok.
  unfold SingleRun.main, SingleRun.run_scrape_sync, try_except, new_notifier.
  rewrite Hv, Htok.
  rewrite (cycle_bind_Ok (lift (Ok b)) _ w b w eq_refl).
  rewrite (cycle_bind_Raise _ _ _ _ _ (cycle_bind_Ok _ _ _ _ _ Hload)).
  unfold failed. run_cycle. by rewrite <- app_assoc.
Qed.
End SingleRunFacts.

(** X15: the single run never raises, and its return value tells
    whether the snapshot was written: it returns [True] exactly when it
    went through to [save_state] with a non-empty scrape, and [False]
    exactly when it saved nothing and left the state file as it was. *)
Theorem single_run_returns_whether_saved `{SetIteration} config scrape w :
  ∃ b w',
    SingleRun.main config scrape w = (Ok b, w')
    ∧ (b = true →
         ∃ cur evs, scrape = Ok cur ∧ cur ≠ [] ∧ w' = completed w cur evs)
    ∧ (b = false →
         ∃ evs, w' = logged w evs
           ∧ forallb (λ ev, negb (is_save ev)) evs = true).
Proof.
  destruct (validate config) as [v|e] eqn:Hv.
  2:{ rewrite (single_run_invalid_config _ _ _ _ Hv).
      eexists _, _. split; [reflexivity|]. split; [done|].
      intros _. eexists. split; [reflexivity|].
      by destruct (falsy (telegram_bot_token config)). }
  destruct (load_state_cases w) as [[prev Hload]|Hload].
  2:{ rewrite (single_run_not_loaded _ _ _ _ _ Hv Hload).
      eexists _, _. split; [reflexivity|]. split; [done|].
      intros _. by eexists. }
  destruct scrape as [cur|e].
  2:{ rewrite (single_run_scrape_raises _ _ _ _ _ Hv Hload).
      eexists _, _. split; [reflexivity|]. split; [done|].
      intros _. by eexists. }
  rewrite (single_run_loaded _ _ _ _ _ Hv Hload).
  destruct cur as [|c cur].
  { eexists _, _. split; [reflexivity|]. split; [done|].
    intros _. by eexists. }
  destruct (is_first_run prev).
  { eexists _, _. split; [reflexivity|]. split; [|done].
    intros _. by eexists _, _. }
  destruct (compare prev (c :: cur)) as [d|e].
  - eexists _, _. split; [reflexivity|]. split; [|done].
    intros _. by eexists _, _.
  - eexists _, _. split; [reflexivity|]. split; [done|].
    intros _. by eexists.
Qed.

Lemma single_run_returns_whether_saved_witness :
  ∃ evs, (SingleRun.main (H:=ascending_iteration) sample_config
            (Raise (ScrapeError "timeout")) (mkWorld None [])).2
         = logged (mkWorld None []) evs.
Proof.
  destruct (single_run_returns_whether_saved (H:=ascending_iteration)
              sample_config (Raise (ScrapeError "timeout"))
              (mkWorld None []))
    as (b & w' & Hrun & Htrue & Hfalse).
  destruct b.
  - destruct (Htrue eq_refl) as (cur & evs & Hs & _). discriminate Hs.
  - destruct (Hfalse eq_refl) as (evs & Hw & _).
    exists evs. by rewrite Hrun.
Defined.
